(** * Ceylon Bank RSA: key generation, OAEP messaging and the security table

    A shallow embedding of [ceylon_bank_rsa.py].  The module is glue code
    around three providers:

    - the Python runtime ([str.encode], [bytes.decode], [base64]), modelled
      here concretely, byte for byte;
    - PyCryptodome ([Crypto.PublicKey.RSA], [Crypto.Cipher.PKCS1_OAEP]),
      which is not part of the repository: it is taken as a parameter
      ([CryptoLib]); what is assumed of it is stated in two classes,
      [CryptoLibLaws] for what only its documentation says and
      [CryptoLibSpec] for the guarantees that the spec words as well;
    - a dictionary literal, the security table, modelled as a [gmap].

    Console output and the wall-clock measurements of the script are left
    out: no function returns them and no property below depends on them. *)

From Stdlib Require Import ZArith NArith List String Ascii Lia Bool.
From Stdlib.Strings Require Import Byte.
From stdpp Require Import base gmap strings list fin_maps pretty.
Import ListNotations.

Open Scope Z_scope.

(** ** Python values: exceptions, results, bytes and strings *)

(** The exceptions that the calls of the module can raise.  [BinasciiError],
    [UnicodeEncodeError] and [UnicodeDecodeError] are subclasses of
    [ValueError] in Python. *)
Inductive exn : Type :=
| ValueError (msg : string)
| TypeError (msg : string)
| BinasciiError (msg : string)
| UnicodeEncodeError
| UnicodeDecodeError.

(** [isinstance(e, ValueError)] *)
Definition is_ValueError (e : exn) : bool :=
  match e with
  | ValueError _ | BinasciiError _ | UnicodeEncodeError | UnicodeDecodeError => true
  | TypeError _ => false
  end.

(** A call either returns or raises; none of the functions of the module
    catches an exception, so the first one raised is the outcome. *)
Inductive result (A : Type) : Type :=
| Ok (a : A)
| Raise (e : exn).
Arguments Ok {A} a.
Arguments Raise {A} e.

#[global] Instance result_bind : MBind result :=
  λ A B f m, match m with Ok a => f a | Raise e => Raise e end.
#[global] Instance result_ret : MRet result := λ A a, Ok a.

Definition raises {A} (m : result A) : Prop := ∃ e, m = Raise e.
Definition returns {A} (m : result A) : Prop := ∃ a, m = Ok a.

(** [bytes] objects, and [str] objects as sequences of code points. *)
Abbreviation bytes := (list byte).
Abbreviation str := (list N).

(** Python keeps every code point of a [str] within the Unicode range. *)
Definition wf_str (s : str) : Prop := Forall (λ c, (c ≤ 0x10FFFF)%N) s.

#[global] Instance byte_eq_dec : EqDecision byte := Byte.byte_eq_dec.

Definition byte_of_N (n : N) : byte := default x00 (Byte.of_N n).

Definition is_ascii (b : byte) : Prop := (Byte.to_N b < 0x80)%N.

(** [int.bit_length] *)
Definition bit_length (n : Z) : Z :=
  if n =? 0 then 0 else Z.log2 (Z.abs n) + 1.

(** ** [str.encode('utf-8')] and [bytes.decode('utf-8')] *)

Module Utf8.

Local Open Scope N_scope.

Definition is_surrogate (c : N) : bool := (0xD800 <=? c) && (c <=? 0xDFFF).

(** One code point.  Lone surrogates are refused by the strict error
    handler, which is the default of [str.encode]. *)
Definition encode_cp (c : N) : result bytes :=
  if c <? 0x80 then Ok [byte_of_N c]
  else if c <? 0x800 then
    Ok [byte_of_N (0xC0 + c / 64); byte_of_N (0x80 + c mod 64)]
  else if is_surrogate c then Raise UnicodeEncodeError
  else if c <? 0x10000 then
    Ok [byte_of_N (0xE0 + c / 4096); byte_of_N (0x80 + (c / 64) mod 64);
        byte_of_N (0x80 + c mod 64)]
  else
    Ok [byte_of_N (0xF0 + c / 262144); byte_of_N (0x80 + (c / 4096) mod 64);
        byte_of_N (0x80 + (c / 64) mod 64); byte_of_N (0x80 + c mod 64)].

Fixpoint encode (s : str) : result bytes :=
  match s with
  | [] => Ok []
  | c :: s' => b ← encode_cp c; bs ← encode s'; Ok (b ++ bs)
  end.

(** A continuation byte [10xxxxxx] gives its six payload bits. *)
Definition cont (b : byte) : option N :=
  let n := Byte.to_N b in
  if (0x80 <=? n) && (n <=? 0xBF) then Some (n - 0x80) else None.

(** The strict decoder: truncated, overlong and out-of-range sequences and
    surrogates are all [UnicodeDecodeError]. *)
Fixpoint decode (bs : bytes) : result str :=
  match bs with
  | [] => Ok []
  | b0 :: r0 =>
    let n0 := Byte.to_N b0 in
    if n0 <? 0x80 then s ← decode r0; Ok (n0 :: s)
    else if n0 <? 0xC0 then Raise UnicodeDecodeError
    else if n0 <? 0xE0 then
      match r0 with
      | b1 :: r1 =>
        match cont b1 with
        | Some x1 =>
          let c := (n0 - 0xC0) * 64 + x1 in
          if c <? 0x80 then Raise UnicodeDecodeError
          else s ← decode r1; Ok (c :: s)
        | None => Raise UnicodeDecodeError
        end
      | _ => Raise UnicodeDecodeError
      end
    else if n0 <? 0xF0 then
      match r0 with
      | b1 :: b2 :: r2 =>
        match cont b1, cont b2 with
        | Some x1, Some x2 =>
          let c := (n0 - 0xE0) * 4096 + x1 * 64 + x2 in
          if (c <? 0x800) || is_surrogate c then Raise UnicodeDecodeError
          else s ← decode r2; Ok (c :: s)
        | _, _ => Raise UnicodeDecodeError
        end
      | _ => Raise UnicodeDecodeError
      end
    else if n0 <? 0xF8 then
      match r0 with
      | b1 :: b2 :: b3 :: r3 =>
        match cont b1, cont b2, cont b3 with
        | Some x1, Some x2, Some x3 =>
          let c := (n0 - 0xF0) * 262144 + x1 * 4096 + x2 * 64 + x3 in
          if (c <? 0x10000) || (0x10FFFF <? c) then Raise UnicodeDecodeError
          else s ← decode r3; Ok (c :: s)
        | _, _, _ => Raise UnicodeDecodeError
        end
      | _ => Raise UnicodeDecodeError
      end
    else Raise UnicodeDecodeError
  end.

End Utf8.

(** ** [base64.b64encode] and [base64.b64decode] *)

Module Base64.

Local Open Scope N_scope.

(** The standard alphabet, [A-Za-z0-9+/]. *)
Definition b2a (i : N) : byte :=
  if i <? 26 then byte_of_N (65 + i)
  else if i <? 52 then byte_of_N (97 + (i - 26))
  else if i <? 62 then byte_of_N (48 + (i - 52))
  else if i =? 62 then "+"%byte
  else "/"%byte.

(** [table_a2b_base64]: the value of an alphabet character. *)
Definition a2b (ch : byte) : option N :=
  let n := Byte.to_N ch in
  if (65 <=? n) && (n <=? 90) then Some (n - 65)
  else if (97 <=? n) && (n <=? 122) then Some (n - 97 + 26)
  else if (48 <=? n) && (n <=? 57) then Some (n - 48 + 52)
  else if n =? 43 then Some 62
  else if n =? 47 then Some 63
  else None.

Definition PAD : byte := "="%byte.

(** What is checked of each of the 64 characters of the alphabet: it is not
    the pad, it is ASCII, and the decoding table maps it back to its index. *)
Definition alphabet_ok (i : N) : bool :=
  negb (Byte.eqb (b2a i) PAD) && (Byte.to_N (b2a i) <? 0x80)
  && bool_decide (a2b (b2a i) = Some i).

(** [binascii.b2a_base64(s, newline=False)] *)
Fixpoint b64encode (s : bytes) : bytes :=
  match s with
  | [] => []
  | [x] =>
    let a := Byte.to_N x in
    [b2a (a / 4); b2a (a mod 4 * 16); PAD; PAD]
  | [x; y] =>
    let a := Byte.to_N x in
    let b := Byte.to_N y in
    [b2a (a / 4); b2a (a mod 4 * 16 + b / 16); b2a (b mod 16 * 4); PAD]
  | x :: y :: z :: r =>
    let a := Byte.to_N x in
    let b := Byte.to_N y in
    let c := Byte.to_N z in
    b2a (a / 4) :: b2a (a mod 4 * 16 + b / 16)
      :: b2a (b mod 16 * 4 + c / 64) :: b2a (c mod 64) :: b64encode r
  end.

(** The loop of [binascii.a2b_base64] outside strict mode, which is how
    [b64decode] calls it when [validate] is left at [False].  Characters
    outside the alphabet are skipped; a pad sequence that completes a quad
    ends the parse, whatever follows; pads elsewhere are skipped.  The
    count that CPython formats into the first error message is left out. *)
Fixpoint a2b_loop (data : bytes) (quad_pos : nat) (leftchar : N) (pads : nat)
  : result bytes :=
  match data with
  | [] =>
    match quad_pos with
    | O => Ok []
    | 1%nat =>
      Raise (BinasciiError
        "Invalid base64-encoded string: number of data characters cannot be 1 more than a multiple of 4")
    | _ => Raise (BinasciiError "Incorrect padding")
    end
  | this_ch :: rest =>
    if Byte.eqb this_ch PAD then
      if (2 <=? quad_pos)%nat then
        if (4 <=? quad_pos + S pads)%nat then Ok []
        else a2b_loop rest quad_pos leftchar (S pads)
      else a2b_loop rest quad_pos leftchar pads
    else
      match a2b this_ch with
      | None => a2b_loop rest quad_pos leftchar pads
      | Some v =>
        match quad_pos with
        | O => a2b_loop rest 1 v 0
        | 1%nat =>
          out ← a2b_loop rest 2 (v mod 16) 0;
          Ok (byte_of_N (leftchar * 4 + v / 16) :: out)
        | 2%nat =>
          out ← a2b_loop rest 3 (v mod 4) 0;
          Ok (byte_of_N (leftchar * 16 + v / 4) :: out)
        | _ =>
          out ← a2b_loop rest 0 0 0;
          Ok (byte_of_N (leftchar * 64 + v) :: out)
        end
      end
  end.

Definition a2b_base64 (data : bytes) : result bytes := a2b_loop data 0 0 0.

(** [_bytes_from_decode_data]: a [str] argument is encoded as ASCII. *)
Fixpoint ascii_encode (s : str) : result bytes :=
  match s with
  | [] => Ok []
  | c :: s' =>
    if c <? 0x80 then bs ← ascii_encode s'; Ok (byte_of_N c :: bs)
    else Raise (ValueError "string argument should contain only ASCII characters")
  end.

Definition b64decode (s : str) : result bytes :=
  data ← ascii_encode s; a2b_base64 data.

End Base64.

(** The code points of a [str] literal written in ASCII. *)
Definition str_of_string (s : string) : str :=
  map Byte.to_N (list_byte_of_string s).

(** ** The cryptographic library

    [Crypto.PublicKey.RSA] and [Crypto.Cipher.PKCS1_OAEP] are an external
    dependency.  The module uses six of their entry points, always with the
    default arguments; what the random source yields during a call is made
    an explicit argument ([Rand]). *)

Class CryptoLib : Type := {
  (** [RsaKey] objects and their attributes [n], [e], [has_private()] *)
  RsaKey : Type;
  key_n : RsaKey → Z;
  key_e : RsaKey → Z;
  has_private : RsaKey → bool;
  (** the draws of [Random.get_random_bytes] during one call *)
  Rand : Type;
  (** [RSA.generate(bits, randfunc=None, e=...)] *)
  RSA_generate : Z → Z → Rand → result RsaKey;
  (** [key.publickey()] *)
  publickey : RsaKey → RsaKey;
  (** [key.export_key()], PEM by default *)
  export_key : RsaKey → bytes;
  (** [RSA.import_key(extern_key)] *)
  import_key : bytes → result RsaKey;
  (** the digest size, in bytes, of the hash that [PKCS1_OAEP.new(key)] takes
      when it is given no [hashAlgo] *)
  digest_size : Z;
  (** [PKCS1_OAEP.new(key).encrypt(message)] *)
  OAEP_encrypt : RsaKey → bytes → Rand → result bytes;
  (** [PKCS1_OAEP.new(key).decrypt(ciphertext)] *)
  OAEP_decrypt : RsaKey → bytes → result bytes;
}.

(** Modelled from the spec: the default of the parameter [e] of
    [RSA.generate], which the module leaves out of its call; the signature is
    not in the repository, and section 4.1 of the spec names 65537. *)
Definition RSA_generate_default_e : Z := 65537.

(** The modulus length in bytes, rounded up. *)
Definition size_in_bytes {L : CryptoLib} (k : RsaKey) : Z :=
  (bit_length (key_n k) + 7) / 8.

(** The longest message OAEP takes under a key: k - 2 hLen - 2. *)
Definition oaep_capacity {L : CryptoLib} (k : RsaKey) : Z :=
  size_in_bytes k - 2 * digest_size - 2.

(** What the API documentation of the library states and the spec of the
    module does not speak of. *)
Class CryptoLibLaws (L : CryptoLib) : Prop := {
  (** [RSA.generate]: "bits ... must be at least 1024"; [ValueError] otherwise. *)
  generate_too_small bits e r :
    bits < 1024 → ∃ msg, RSA_generate bits e r = Raise (ValueError msg);
  (** from 1024 bits on, and with an odd exponent of at least 3, a key is returned *)
  generate_returns bits e r :
    1024 ≤ bits → Z.odd e = true → 3 ≤ e → returns (RSA_generate bits e r);
  (** the key is private and has the exponent asked for *)
  generate_key bits e r k :
    RSA_generate bits e r = Ok k → has_private k = true ∧ key_e k = e;
  (** [publickey()] keeps [n] and [e] and drops the private half *)
  publickey_key k :
    key_n (publickey k) = key_n k ∧ key_e (publickey k) = key_e k
    ∧ has_private (publickey k) = false;
  (** [import_key] reads back what [export_key] wrote *)
  import_export k : import_key (export_key k) = Ok k;
  (** [decrypt] with a private key raises nothing but [ValueError], which is
      what a failed integrity check gives *)
  decrypt_raises k c e :
    has_private k = true → OAEP_decrypt k c = Raise e → ∃ msg, e = ValueError msg;
}.

(** Modelled from the spec: the guarantees of key generation and of the
    cipher, which the module leaves to [RSA.generate] and [PKCS1_OAEP]; their
    code is not in the repository.  Sections 3, 4.1 and 4.2 of the spec word
    them as below, and so does the documentation of the library. *)
Class CryptoLibSpec (L : CryptoLib) : Prop := {
  (** 4.1: "the modulus bit-length exactly equals the requested size" *)
  generate_modulus bits e r k :
    RSA_generate bits e r = Ok k → bit_length (key_n k) = bits;
  (** 4.2: "maximum plaintext size = modulusSizeBytes - 2 x hashLength - 2";
      "exceeding this raises" an error, here the [ValueError] of [encrypt] *)
  encrypt_too_long k m r :
    oaep_capacity k < Z.of_nat (length m) →
    ∃ msg, OAEP_encrypt k m r = Raise (ValueError msg);
  (** up to that size a ciphertext is returned, as long as the modulus *)
  encrypt_returns k m r :
    Z.of_nat (length m) ≤ oaep_capacity k →
    ∃ c, OAEP_encrypt k m r = Ok c ∧ Z.of_nat (length c) = size_in_bytes k;
  (** 4.2: decryption fails "if the ciphertext length does not equal the
      modulus byte length" *)
  decrypt_wrong_length k c :
    Z.of_nat (length c) ≠ size_in_bytes k →
    ∃ msg, OAEP_decrypt k c = Raise (ValueError msg);
  (** 3: "privateKey can decrypt what publicKey encrypts" *)
  decrypt_encrypt bits e r k m r' c :
    RSA_generate bits e r = Ok k →
    OAEP_encrypt (publickey k) m r' = Ok c → OAEP_decrypt k c = Ok m;
}.

(** ** The module *)

Section Module.

Context {L : CryptoLib}.

(** [generate_rsa_keys(key_size=2048)]; [None] stands for a call without the
    argument.  Returns [(private_key, public_key, key)]. *)
Definition generate_rsa_keys (key_size : option Z) (rnd : Rand)
  : result (bytes * bytes * RsaKey) :=
  let key_size := default 2048 key_size in
  key ← RSA_generate key_size RSA_generate_default_e rnd;
  let private_key := export_key key in
  let public_key := export_key (publickey key) in
  Ok (private_key, public_key, key).

(** [encrypt_message(message, public_key)] *)
Definition encrypt_message (message : str) (public_key : bytes) (rnd : Rand)
  : result str :=
  rsa_key ← import_key public_key;
  data ← Utf8.encode message;
  encrypted ← OAEP_encrypt rsa_key data rnd;
  Utf8.decode (Base64.b64encode encrypted).

(** [decrypt_message(encrypted_message, private_key)] *)
Definition decrypt_message (encrypted_message : str) (private_key : bytes)
  : result str :=
  rsa_key ← import_key private_key;
  encrypted_bytes ← Base64.b64decode encrypted_message;
  decrypted ← OAEP_decrypt rsa_key encrypted_bytes;
  Utf8.decode decrypted.

End Module.

(** The sizes the module is documented for and exercises in [main]. *)
Definition key_sizes : list Z := [2048; 3072; 4096].

(** ** The security table *)

(** The values stored in the table are integers and strings. *)
Inductive pyval : Type :=
| VInt (z : Z)
| VStr (s : string).

#[global] Instance pyval_eq_dec : EqDecision pyval.
Proof. solve_decision. Defined.

Abbreviation dict := (gmap string pyval).

Definition tier_2048 : dict :=
  <["security_bits" := VInt 112]> (
  <["level" := VStr "Standard Security"]> (
  <["nist_approval" := VStr "Through 2030"]> (
  <["use_case" := VStr "Routine operations and standard transactions"]> ∅))).

Definition tier_3072 : dict :=
  <["security_bits" := VInt 128]> (
  <["level" := VStr "High Security"]> (
  <["nist_approval" := VStr "Beyond 2030"]> (
  <["use_case" := VStr "High-value transactions and long-term protection"]> ∅))).

Definition tier_4096 : dict :=
  <["security_bits" := VInt 152]> (
  <["level" := VStr "Maximum Security"]> (
  <["nist_approval" := VStr "Maximum recommended"]> (
  <["use_case" := VStr "Critical infrastructure and executive communications"]> ∅))).

(** The dictionary literal [security_info]. *)
Definition security_info : gmap Z (gmap string pyval) :=
  <[2048 := tier_2048]> (<[3072 := tier_3072]> (<[4096 := tier_4096]> ∅)).

(** [get_security_level(key_size)], by value: [security_info.get(key_size, {})]. *)
Definition get_security_level (key_size : Z) : gmap string pyval :=
  default ∅ (security_info !! key_size).

(** Dictionaries are mutable objects, and the caller receives a reference.
    The store maps the address of each live dictionary to its contents. *)
Abbreviation loc := positive.
Abbreviation store := (gmap positive (gmap string pyval)).

Definition alloc (d : gmap string pyval) (h : store) : loc * store :=
  let l := fresh (dom h) in (l, <[l := d]> h).

(** [get_security_level] on the store.  Each call evaluates the literal,
    which allocates the three inner dictionaries, and the default argument
    [{}]; the table itself is a local of the call and is dropped on return. *)
Definition get_security_level_ref (key_size : Z) (h : store) : loc * store :=
  let '(l2048, h) := alloc tier_2048 h in
  let '(l3072, h) := alloc tier_3072 h in
  let '(l4096, h) := alloc tier_4096 h in
  let table : gmap Z loc := <[2048 := l2048]> (<[3072 := l3072]> (<[4096 := l4096]> ∅)) in
  let '(l_default, h) := alloc ∅ h in
  (default l_default (table !! key_size), h).

(** ** A reference implementation of the library contract

    A small library that meets [CryptoLibLaws] and [CryptoLibSpec]: it shows
    that what is assumed of PyCryptodome is consistent, and it is the library
    at which the closed examples below are evaluated.  It keeps the layout of
    an OAEP-encoded message ([00 || seed || tag || 00..00 || 01 || M], with
    the [2 hLen + 2] bytes of overhead) and binds a ciphertext to its key
    through the tag; it does no masking and no exponentiation, and it is not
    a cipher. *)

Module Ref.

Record key : Type := Key { n : positive; e : positive; priv : bool }.

(** Keys are written out in binary, least significant digit first. *)
Fixpoint write_pos (p : positive) : bytes :=
  match p with
  | xH => ["1"%byte]
  | xO p' => "0"%byte :: write_pos p'
  | xI p' => "1"%byte :: write_pos p'
  end.

Fixpoint read_pos (l : bytes) : option (positive * bytes) :=
  match l with
  | [] => None
  | b :: l' =>
    if Byte.eqb b "1" then
      match l' with
      | [] => None
      | s :: rest =>
        if Byte.eqb s ";" then Some (xH, rest)
        else '(p, rest') ← read_pos l'; Some (xI p, rest')
      end
    else if Byte.eqb b "0" then '(p, rest') ← read_pos l'; Some (xO p, rest')
    else None
  end.

Definition export (k : key) : bytes :=
  (if priv k then "S"%byte else "P"%byte)
    :: write_pos (n k) ++ ";"%byte :: write_pos (e k) ++ [";"%byte].

Definition unsupported : exn := ValueError "RSA key format is not supported".

Definition import (l : bytes) : result key :=
  match l with
  | [] => Raise unsupported
  | f :: l1 =>
    match read_pos l1 with
    | Some (pn, l2) =>
      match read_pos l2 with
      | Some (pe, []) =>
        if Byte.eqb f "S" then Ok (Key pn pe true)
        else if Byte.eqb f "P" then Ok (Key pn pe false)
        else Raise unsupported
      | _ => Raise unsupported
      end
    | None => Raise unsupported
    end
  end.

(** The modulus takes its top bit from the size and the rest from the
    random draw. *)
Definition generate (bits e : Z) (r : Z) : result key :=
  if bits <? 1024 then Raise (ValueError "RSA modulus length must be >= 1024")
  else if Z.even e || (e <? 3) then
    Raise (ValueError "RSA public exponent must be a positive, odd integer larger than 2.")
  else Ok (Key (Z.to_pos (2 ^ (bits - 1) + r mod 2 ^ (bits - 1))) (Z.to_pos e) true).

Definition public (k : key) : key := Key (n k) (e k) false.

Definition size (k : key) : Z := (bit_length (Zpos (n k)) + 7) / 8.

(** [len] bytes of [z], least significant first. *)
Fixpoint le_bytes (len : nat) (z : Z) : bytes :=
  match len with
  | O => []
  | S len' => byte_of_N (Z.to_N (z mod 256)) :: le_bytes len' (z / 256)
  end.

(** As with SHA-1. *)
Definition hLen : Z := 20.

Definition tag (k : key) : bytes := le_bytes 20 (Zpos (n k)).

Definition encrypt (k : key) (m : bytes) (r : Z) : result bytes :=
  let ps_len := size k - Z.of_nat (length m) - 2 * hLen - 2 in
  if ps_len <? 0 then Raise (ValueError "Plaintext is too long.")
  else Ok (x00 :: le_bytes 20 r ++ tag k ++ repeat x00 (Z.to_nat ps_len) ++ x01 :: m).

Fixpoint skip_zeros (l : bytes) : bytes :=
  match l with
  | b :: l' => if Byte.eqb b x00 then skip_zeros l' else l
  | [] => []
  end.

Definition incorrect : exn := ValueError "Incorrect decryption.".

Definition decrypt (k : key) (c : bytes) : result bytes :=
  if negb (Z.of_nat (length c) =? size k) || (size k <? hLen + 2) then
    Raise (ValueError "Ciphertext with incorrect length.")
  else if negb (priv k) then Raise (TypeError "This is not a private key")
  else
    match c with
    | y :: rest =>
      let db := drop 20 rest in
      if Byte.eqb y x00 && bool_decide (take 20 db = tag k) then
        match skip_zeros (drop 20 db) with
        | b :: m => if Byte.eqb b x01 then Ok m else Raise incorrect
        | [] => Raise incorrect
        end
      else Raise incorrect
    | [] => Raise incorrect
    end.

#[global] Instance lib : CryptoLib := {|
  RsaKey := key;
  key_n k := Zpos (n k);
  key_e k := Zpos (e k);
  has_private := priv;
  Rand := Z;
  RSA_generate := generate;
  publickey := public;
  export_key := export;
  import_key := import;
  digest_size := hLen;
  OAEP_encrypt := encrypt;
  OAEP_decrypt := decrypt;
|}.

End Ref.

(** ** Sample inputs

    The message that [test_rsa_implementation] sends through the module, two
    messages at the capacity boundary of a 2048-bit key (Sinhala letters take
    three bytes each: 71 of them and a full stop make 214 bytes), and fixed
    outcomes of the random source. *)

Definition plaintext : str :=
  str_of_string
    "Ceylon Bank Confidential Transaction: Transfer $50,000 to Account #12345678".

Definition full_message : str := repeat 0xDBD%N 71 ++ [46%N].
Definition long_message : str := full_message ++ [33%N].

(** The bytes of a message that encodes. *)
Definition encoded (m : str) : bytes :=
  match Utf8.encode m with
  | Ok data => data
  | Raise _ => []
  end.

Definition key_draw : Z := 20251101.
Definition seed_draw : Z := 7.

(** The key that the reference library generates from [key_draw] at 2048 bits. *)
Definition sample_key : Ref.key :=
  Ref.Key (Z.to_pos (2 ^ 2047 + key_draw mod 2 ^ 2047)) 65537 true.

(** ** What [a2b_base64] looks at *)

(** A byte that the decoding loop does not skip: a character of the alphabet
    or the pad. *)
Definition significant (ch : byte) : bool :=
  Byte.eqb ch Base64.PAD || bool_decide (is_Some (Base64.a2b ch)).

(** The same on the code points of a [str]: [A-Z], [a-z], [0-9], [+], [/]
    and [=]. *)
Definition is_text (c : N) : bool :=
  (((65 <=? c) && (c <=? 90)) || ((97 <=? c) && (c <=? 122))
   || ((48 <=? c) && (c <=? 57)) || (c =? 43) || (c =? 47) || (c =? 61))%N.

(** ** The script on the console

    The functions of the module together with what they print, and the three
    functions that only print and drive: [display_security_info],
    [test_rsa_implementation] and [main]. *)

(** A [str] literal of the source, read from its UTF-8 bytes. *)
Definition lit (s : string) : str :=
  match Utf8.decode (list_byte_of_string s) with
  | Ok x => x
  | Raise _ => []
  end.

(** The line break of an f-string that starts or ends with one. *)
Definition nl : str := [10%N].

(** [str(i)] for an [int]. *)
Definition str_of_int (i : Z) : str := str_of_string (pretty i).

(** [c * n] for a one-character string [c]: empty when [n] is not positive. *)
Definition times (c : N) (n : Z) : str := repeat c (Z.to_nat n).

(** [len(s)] *)
Definition len (s : str) : Z := Z.of_nat (length s).

(** What the script can raise: an exception of the calls modelled above, or
    the [KeyError] of a subscript on a dictionary. *)
Inductive script_exn : Type :=
| Escaped (e : exn)
| KeyError (key : string).

(** The console, and how many times the clock and the random source have been
    consulted.  Each element of [stdout] is the argument of one [print]; the
    console shows it followed by a line break. *)
Record world : Type := World {
  stdout : list str;
  clock_reads : nat;
  random_draws : nat;
}.

(** What the script gets from the machine it runs on: the readings of
    [time.time()] and the text of a duration formatted with [:.4f], both left
    open because they are floating-point values, and the successive draws of
    the random source. *)
Class Host (L : CryptoLib) : Type := {
  Time : Type;
  clock : nat → Time;
  seconds_4f : Time → Time → str;
  random : nat → Rand;
}.

(** A computation of the script: from a world to a value or an exception, and
    the world it leaves. *)
Definition io (A : Type) : Type := world → (A + script_exn) * world.

Definition io_ret {A} (a : A) : io A := λ w, (inl a, w).

Definition io_bind {A B} (m : io A) (f : A → io B) : io B :=
  λ w, match m w with
       | (inl a, w') => f a w'
       | (inr e, w') => (inr e, w')
       end.

#[global] Instance io_mret : MRet io := @io_ret.
#[global] Instance io_mbind : MBind io := λ A B f m, io_bind m f.

(** [print(s)].  Standard output is taken to accept every string: its
    encoding has the box characters and the check mark. *)
Definition print (s : str) : io unit :=
  λ w, (inl tt, World (stdout w ++ [s]) (clock_reads w) (random_draws w)).

Definition raise {A} (e : script_exn) : io A := λ w, (inr e, w).

(** A call of the module that prints nothing and draws nothing. *)
Definition call {A} (r : result A) : io A :=
  match r with
  | Ok a => io_ret a
  | Raise e => raise (Escaped e)
  end.

(** [d[key]] *)
Definition subscript (d : gmap string pyval) (key : string) : io pyval :=
  match d !! key with
  | Some v => io_ret v
  | None => raise (KeyError key)
  end.

(** [str(v)], which is also how an f-string shows [v]. *)
Definition str_of_val (v : pyval) : str :=
  match v with
  | VInt i => str_of_int i
  | VStr s => str_of_string s
  end.

(** [len(v)] *)
Definition len_of_val (v : pyval) : io Z :=
  match v with
  | VStr s => io_ret (len (str_of_string s))
  | VInt _ => raise (Escaped (TypeError "object of type 'int' has no len()"))
  end.

Module Console.

Section Script.

Context {L : CryptoLib} {H : Host L}.

Definition time_time : io Time :=
  λ w, (inl (clock (clock_reads w)),
        World (stdout w) (S (clock_reads w)) (random_draws w)).

(** [time.sleep]: nothing but the passing of time, which the clock readings
    leave open anyway. *)
Definition time_sleep : io unit := io_ret tt.

(** A call of the library that consumes the next draw of the random source.
    A call that raises is not counted: both [RSA.generate] and
    [cipher.encrypt] check their arguments before they draw. *)
Definition call_random {A} (f : Rand → result A) : io A :=
  λ w, match f (random (random_draws w)) with
       | Ok a => (inl a, World (stdout w) (clock_reads w) (S (random_draws w)))
       | Raise e => (inr (Escaped e), w)
       end.

(** [generate_rsa_keys(key_size=2048)] with its output. *)
Definition generate_rsa_keys (key_size : option Z) : io (bytes * bytes * RsaKey) :=
  let key_size := default 2048 key_size in
  print (nl ++ times 61 70);;
  print (lit "Generating " ++ str_of_int key_size ++ lit "-bit RSA key pair...");;
  print (times 61 70);;
  start_time ← time_time;
  key ← call_random (RSA_generate key_size RSA_generate_default_e);
  end_time ← time_time;
  let private_key := export_key key in
  let public_key := export_key (publickey key) in
  print (lit "✓ Key generation completed in "
           ++ seconds_4f start_time end_time ++ lit " seconds");;
  print (lit "  Public Exponent (e): " ++ str_of_int (key_e key));;
  print (lit "  Modulus Size: " ++ str_of_int (bit_length (key_n key)) ++ lit " bits");;
  mret (private_key, public_key, key).

(** [encrypt_message] and [decrypt_message] print nothing; the first draws
    from the random source inside [cipher.encrypt]. *)
Definition encrypt_message (message : str) (public_key : bytes) : io str :=
  call_random (encrypt_message message public_key).

Definition decrypt_message (encrypted_message : str) (private_key : bytes) : io str :=
  call (decrypt_message encrypted_message private_key).

(** [display_security_info(key_size)].  Each f-string evaluates its
    subscripts from left to right, the one inside [len] included. *)
Definition display_security_info (key_size : Z) : io unit :=
  let info := get_security_level key_size in
  print (nl ++ lit "┌" ++ times 0x2500 68 ++ lit "┐");;
  print (lit "│ SECURITY INFORMATION - " ++ str_of_int key_size ++ lit "-bit RSA Key"
           ++ times 32 (32 - len (str_of_int key_size)) ++ lit "│");;
  print (lit "├" ++ times 0x2500 68 ++ lit "┤");;
  bits ← subscript info "security_bits";
  bits' ← subscript info "security_bits";
  print (lit "│ Security Strength: ~" ++ str_of_val bits ++ lit " bits"
           ++ times 32 (41 - len (str_of_val bits')) ++ lit "│");;
  level ← subscript info "level";
  level' ← subscript info "level";
  n_level ← len_of_val level';
  print (lit "│ Security Level: " ++ str_of_val level
           ++ times 32 (50 - n_level) ++ lit "│");;
  approval ← subscript info "nist_approval";
  approval' ← subscript info "nist_approval";
  n_approval ← len_of_val approval';
  print (lit "│ NIST Approval: " ++ str_of_val approval
           ++ times 32 (51 - n_approval) ++ lit "│");;
  use ← subscript info "use_case";
  use' ← subscript info "use_case";
  n_use ← len_of_val use';
  print (lit "│ Recommended Use: " ++ str_of_val use
           ++ times 32 (48 - n_use) ++ lit "│");;
  print (lit "└" ++ times 0x2500 68 ++ lit "┘").

(** The two lines of the success verdict, the line of the failure verdict and
    the rule that closes a test. *)
Definition SUCCESS : str := lit "✓ SUCCESS: Decrypted text matches original message!".
Definition VERIFIED : str := lit "✓ RSA encryption/decryption verified for Ceylon Bank".
Definition FAILURE : str := lit "✗ FAILURE: Decrypted text does not match original!".
Definition closing_rule : str := times 61 70 ++ nl.

(** [test_rsa_implementation(key_size=2048)]; its message is [plaintext]. *)
Definition test_rsa_implementation (key_size : option Z) : io unit :=
  let key_size := default 2048 key_size in
  display_security_info key_size;;
  '(private_key, public_key, key_obj) ← generate_rsa_keys (Some key_size);
  print (nl ++ times 0x2500 70);;
  print (lit "ENCRYPTION TEST");;
  print (times 0x2500 70);;
  print (lit "Original Message:");;
  print (lit "  " ++ plaintext);;
  start_time ← time_time;
  ciphertext ← encrypt_message plaintext public_key;
  end_time ← time_time;
  print (nl ++ lit "Encrypted Message (Base64, first 80 characters):");;
  print (lit "  " ++ take 80 ciphertext ++ lit "...");;
  print (lit "  Full ciphertext length: " ++ str_of_int (len ciphertext)
           ++ lit " characters");;
  print (lit "✓ Encryption completed in " ++ seconds_4f start_time end_time
           ++ lit " seconds");;
  print (nl ++ times 0x2500 70);;
  print (lit "DECRYPTION TEST");;
  print (times 0x2500 70);;
  start_time ← time_time;
  decrypted_text ← decrypt_message ciphertext private_key;
  end_time ← time_time;
  print (lit "Decrypted Message:");;
  print (lit "  " ++ decrypted_text);;
  print (lit "✓ Decryption completed in " ++ seconds_4f start_time end_time
           ++ lit " seconds");;
  print (nl ++ times 0x2500 70);;
  print (lit "VERIFICATION");;
  print (times 0x2500 70);;
  (if bool_decide (plaintext = decrypted_text) then
     print SUCCESS;;
     print VERIFIED
   else
     print FAILURE);;
  print closing_rule.

(** The [for] loop of [main]: the test and a pause for each size in turn. *)
Fixpoint for_each (sizes : list Z) : io unit :=
  match sizes with
  | [] => mret tt
  | key_size :: rest =>
    test_rsa_implementation (Some key_size);;
    time_sleep;;
    for_each rest
  end.

(** [main()] *)
Definition main : io unit :=
  print (nl ++ times 61 70);;
  print (times 32 15 ++ lit "CEYLON BANK RSA KEY MANAGEMENT SYSTEM");;
  print (times 32 10 ++ lit "Implementing Secure Asymmetric Encryption for Banking");;
  print (times 61 70);;
  for_each key_sizes;;
  print (times 61 70);;
  print (times 32 20 ++ lit "All RSA Tests Completed Successfully!");;
  print (times 32 15 ++ lit "Ceylon Bank Encryption System Ready for Deployment");;
  print (times 61 70);;
  print (nl ++ lit "RECOMMENDATIONS:");;
  print (lit "  • Use 2048-bit keys for routine operations (valid through 2030)");;
  print (lit "  • Use 3072-bit keys for high-value transactions");;
  print (lit "  • Use 4096-bit keys for critical infrastructure and long-term security");;
  print (nl ++ lit "IMPORTANT SECURITY NOTES:");;
  print (lit "  • Always keep private keys confidential and secure");;
  print (lit "  • Use Hardware Security Modules (HSMs) for key storage");;
  print (lit "  • Implement proper key lifecycle management");;
  print (lit "  • Monitor for quantum computing developments");;
  print (times 61 70 ++ nl).

(** The line by which [main] announces that all went well. *)
Definition ALL_COMPLETED : str :=
  times 32 20 ++ lit "All RSA Tests Completed Successfully!".

End Script.
End Console.

(** A host for the reference library: the clock counts its readings, a
    duration is shown as the difference of two readings, and the draws are
    the integers from [key_draw] on. *)
#[global] Instance ref_host : Host Ref.lib := {|
  Time := Z;
  clock i := Z.of_nat i;
  seconds_4f t0 t1 := str_of_int (t1 - t0);
  random i := key_draw + Z.of_nat i;
|}.

Definition fresh_world : world := World [] 0 0.

(** ** Verdicts and a broken library *)

(** What follows the 32 lines that a test prints before its verdict. *)
Definition verdict (decrypted_text : str) : list str :=
  if bool_decide (plaintext = decrypted_text)
  then [Console.SUCCESS; Console.VERIFIED; Console.closing_rule]
  else [Console.FAILURE; Console.closing_rule].


(** A library whose decryption is broken: the reference library, except that
    [decrypt] returns the empty message for every ciphertext. *)
Definition faulty : CryptoLib := {|
  RsaKey := Ref.key;
  key_n k := Zpos (Ref.n k);
  key_e k := Zpos (Ref.e k);
  has_private := Ref.priv;
  Rand := Z;
  RSA_generate := Ref.generate;
  publickey := Ref.public;
  export_key := Ref.export;
  import_key := Ref.import;
  digest_size := Ref.hLen;
  OAEP_encrypt := Ref.encrypt;
  OAEP_decrypt _ _ := Ok [];
|}.

Definition faulty_host : Host faulty :=
  Build_Host faulty Z (λ i, Z.of_nat i) (λ t0 t1, str_of_int (t1 - t0))
    (λ i, key_draw + Z.of_nat i).

(** The ciphertext of [plaintext] under [sample_key] on the draw after
    [key_draw]. *)
Definition sample_ciphertext : str :=
  match encrypt_message (L := Ref.lib) plaintext
          (Ref.export (Ref.public sample_key)) (key_draw + 1) with
  | Ok c => c
  | Raise _ => []
  end.

(** * Proofs *)

(** Linear arithmetic with division and remainder by constants. *)
Ltac dlia := zify; Z.to_euclidean_division_equations; lia.

(** ** Bytes *)

Lemma to_N_byte_of_N (n : N) : (n < 256)%N → Byte.to_N (byte_of_N n) = n.
Proof.
  intros Hn. unfold byte_of_N.
  destruct (Byte.of_N n) as [b|] eqn:E.
  - now apply Byte.to_of_N.
  - pose proof (Byte.to_of_N_option_map n) as H. rewrite E in H. simpl in H.
    destruct (N.leb_spec n 255); [discriminate | lia].
Qed.

Lemma byte_of_N_to_N (b : byte) : byte_of_N (Byte.to_N b) = b.
Proof. unfold byte_of_N. now rewrite Byte.of_to_N. Qed.

Lemma to_N_lt (b : byte) : (Byte.to_N b < 256)%N.
Proof. pose proof (Byte.to_N_bounded b). lia. Qed.

Lemma bind_Ok {A B} (m : result A) (f : A → result B) (b : B) :
  m ≫= f = Ok b → ∃ a, m = Ok a ∧ f a = Ok b.
Proof. destruct m as [a|e]; [eauto | discriminate]. Qed.

(** ** UTF-8 *)

Section Utf8_facts.
Import Utf8.
Local Open Scope N_scope.

Lemma cont_byte (x : N) : x < 64 → cont (byte_of_N (0x80 + x)) = Some x.
Proof.
  intros Hx. unfold cont. rewrite to_N_byte_of_N by lia.
  destruct (N.leb_spec 0x80 (0x80 + x)); [| lia].
  destruct (N.leb_spec (0x80 + x) 0xBF); [| lia].
  simpl. f_equal. lia.
Qed.

Lemma decode_1 b0 r :
  Byte.to_N b0 < 0x80 →
  decode (b0 :: r) = (s ← decode r; Ok (Byte.to_N b0 :: s)).
Proof.
  intros H. cbn [decode]. cbv zeta.
  destruct (N.ltb_spec (Byte.to_N b0) 0x80); [reflexivity | lia].
Qed.

Lemma decode_2 b0 b1 r x1 :
  0xC0 ≤ Byte.to_N b0 < 0xE0 → cont b1 = Some x1 →
  0x80 ≤ (Byte.to_N b0 - 0xC0) * 64 + x1 →
  decode (b0 :: b1 :: r) = (s ← decode r; Ok ((Byte.to_N b0 - 0xC0) * 64 + x1 :: s)).
Proof.
  intros H0 H1 Hc. cbn [decode]. cbv zeta. rewrite H1.
  destruct (N.ltb_spec (Byte.to_N b0) 0x80); [lia |].
  destruct (N.ltb_spec (Byte.to_N b0) 0xC0); [lia |].
  destruct (N.ltb_spec (Byte.to_N b0) 0xE0); [| lia].
  destruct (N.ltb_spec ((Byte.to_N b0 - 0xC0) * 64 + x1) 0x80); [lia | reflexivity].
Qed.

Lemma decode_3 b0 b1 b2 r x1 x2 :
  0xE0 ≤ Byte.to_N b0 < 0xF0 → cont b1 = Some x1 → cont b2 = Some x2 →
  let c := (Byte.to_N b0 - 0xE0) * 4096 + x1 * 64 + x2 in
  0x800 ≤ c → is_surrogate c = false →
  decode (b0 :: b1 :: b2 :: r) = (s ← decode r; Ok (c :: s)).
Proof.
  intros H0 H1 H2 c Hc Hs. cbn [decode]. cbv zeta. rewrite H1, H2.
  destruct (N.ltb_spec (Byte.to_N b0) 0x80); [lia |].
  destruct (N.ltb_spec (Byte.to_N b0) 0xC0); [lia |].
  destruct (N.ltb_spec (Byte.to_N b0) 0xE0); [lia |].
  destruct (N.ltb_spec (Byte.to_N b0) 0xF0); [| lia].
  fold c. rewrite Hs.
  destruct (N.ltb_spec c 0x800); [lia | reflexivity].
Qed.

Lemma decode_4 b0 b1 b2 b3 r x1 x2 x3 :
  0xF0 ≤ Byte.to_N b0 < 0xF8 →
  cont b1 = Some x1 → cont b2 = Some x2 → cont b3 = Some x3 →
  let c := (Byte.to_N b0 - 0xF0) * 262144 + x1 * 4096 + x2 * 64 + x3 in
  0x10000 ≤ c ≤ 0x10FFFF →
  decode (b0 :: b1 :: b2 :: b3 :: r) = (s ← decode r; Ok (c :: s)).
Proof.
  intros H0 H1 H2 H3 c Hc. cbn [decode]. cbv zeta. rewrite H1, H2, H3.
  destruct (N.ltb_spec (Byte.to_N b0) 0x80); [lia |].
  destruct (N.ltb_spec (Byte.to_N b0) 0xC0); [lia |].
  destruct (N.ltb_spec (Byte.to_N b0) 0xE0); [lia |].
  destruct (N.ltb_spec (Byte.to_N b0) 0xF0); [lia |].
  destruct (N.ltb_spec (Byte.to_N b0) 0xF8); [| lia].
  fold c.
  destruct (N.ltb_spec c 0x10000); [lia |].
  destruct (N.ltb_spec 0x10FFFF c); [lia | reflexivity].
Qed.

(** Decoding the encoding of one code point gives it back and goes on
    with the rest of the input. *)
Lemma decode_encode_cp c b r :
  c ≤ 0x10FFFF → encode_cp c = Ok b →
  decode (b ++ r) = (s ← decode r; Ok (c :: s)).
Proof.
  intros Hc. unfold encode_cp.
  destruct (N.ltb_spec c 0x80) as [H1|H1].
  { intros [= <-]. simpl app. rewrite decode_1; rewrite to_N_byte_of_N by lia; [done | lia]. }
  destruct (N.ltb_spec c 0x800) as [H2|H2].
  { intros [= <-]. simpl app.
    rewrite (decode_2 _ _ _ (c mod 64)).
    all: try (apply cont_byte; dlia).
    all: rewrite ?to_N_byte_of_N by dlia.
    all: try replace ((0xC0 + c / 64 - 0xC0) * 64 + c mod 64) with c by dlia.
    all: try done; try dlia. }
  destruct (is_surrogate c) eqn:Hs; [discriminate |].
  destruct (N.ltb_spec c 0x10000) as [H3|H3].
  { intros [= <-]. simpl app.
    rewrite (decode_3 _ _ _ _ ((c / 64) mod 64) (c mod 64)).
    all: try (apply cont_byte; dlia).
    all: rewrite ?to_N_byte_of_N by dlia.
    all: try replace ((0xE0 + c / 4096 - 0xE0) * 4096 + (c / 64) mod 64 * 64 + c mod 64) with c by dlia.
    all: try done; try dlia. }
  intros [= <-]. simpl app.
  rewrite (decode_4 _ _ _ _ _ ((c / 4096) mod 64) ((c / 64) mod 64) (c mod 64)).
  all: try (apply cont_byte; dlia).
  all: rewrite ?to_N_byte_of_N by dlia.
  all: try replace ((0xF0 + c / 262144 - 0xF0) * 262144 + (c / 4096) mod 64 * 4096
                    + (c / 64) mod 64 * 64 + c mod 64) with c by dlia.
  all: try done; try dlia.
Qed.
End Utf8_facts.

Section Utf8_strings.
Import Utf8.
Local Open Scope N_scope.

(** [bytes.decode] inverts [str.encode] wherever the latter returns. *)
Lemma decode_encode (s : str) (bs : bytes) :
  wf_str s → encode s = Ok bs → decode bs = Ok s.
Proof.
  intros Hwf. revert bs. induction Hwf as [|c s Hc _ IH]; intros bs.
  - now intros [= <-].
  - cbn [encode]. intros H.
    apply bind_Ok in H as (b & Hb & H). apply bind_Ok in H as (bs' & Hbs & [= <-]).
    rewrite (decode_encode_cp c b bs' Hc Hb), (IH bs' Hbs). reflexivity.
Qed.

(** ASCII text is its own UTF-8. *)
Lemma decode_ascii (l : bytes) :
  Forall is_ascii l → decode l = Ok (map Byte.to_N l).
Proof.
  induction 1 as [|b l Hb _ IH]; [reflexivity |].
  rewrite decode_1 by exact Hb. now rewrite IH.
Qed.

Lemma ascii_encode_bytes (l : bytes) :
  Forall is_ascii l → Base64.ascii_encode (map Byte.to_N l) = Ok l.
Proof.
  induction 1 as [|b l Hb _ IH]; [reflexivity |].
  cbn [map Base64.ascii_encode]. unfold is_ascii in Hb.
  destruct (N.ltb_spec (Byte.to_N b) 0x80); [| lia].
  rewrite IH. cbn. now rewrite byte_of_N_to_N.
Qed.

End Utf8_strings.

(** ** Base64 *)

Section Base64_facts.
Import Base64.
Local Open Scope N_scope.

(** The alphabet, checked character by character. *)
Lemma b2a_table : forallb alphabet_ok (map N.of_nat (seq 0 64)) = true.
Proof. vm_compute. reflexivity. Qed.

Lemma b2a_spec (i : N) :
  i < 64 →
  Byte.eqb (b2a i) PAD = false ∧ is_ascii (b2a i) ∧ a2b (b2a i) = Some i.
Proof.
  intros Hi.
  assert (Hin : In i (map N.of_nat (seq 0 64))).
  { apply in_map_iff. exists (N.to_nat i). split; [lia |]. apply in_seq. lia. }
  pose proof (proj1 (forallb_forall _ _) b2a_table i Hin) as H.
  unfold alphabet_ok in H.
  apply andb_prop in H as [H H3]. apply andb_prop in H as [H1 H2].
  apply negb_true_iff in H1. apply N.ltb_lt in H2. apply bool_decide_eq_true in H3.
  done.
Qed.

Lemma PAD_not_alphabet : a2b PAD = None ∧ is_ascii PAD.
Proof. split; [reflexivity | unfold is_ascii; cbn; lia]. Qed.

(** One alphabet character in each of the four positions of a quad. *)
Lemma a2b_loop_char i rest q left pads :
  i < 64 →
  a2b_loop (b2a i :: rest) q left pads =
    match q with
    | O => a2b_loop rest 1 i 0
    | 1%nat => out ← a2b_loop rest 2 (i mod 16) 0; Ok (byte_of_N (left * 4 + i / 16) :: out)
    | 2%nat => out ← a2b_loop rest 3 (i mod 4) 0; Ok (byte_of_N (left * 16 + i / 4) :: out)
    | _ => out ← a2b_loop rest 0 0 0; Ok (byte_of_N (left * 64 + i) :: out)
    end.
Proof.
  intros Hi. destruct (b2a_spec i Hi) as (Hp & _ & Ha).
  cbn [a2b_loop]. now rewrite Hp, Ha.
Qed.

Lemma a2b_loop_quad x y z rest :
  a2b_loop (b2a (Byte.to_N x / 4)
            :: b2a (Byte.to_N x mod 4 * 16 + Byte.to_N y / 16)
            :: b2a (Byte.to_N y mod 16 * 4 + Byte.to_N z / 64)
            :: b2a (Byte.to_N z mod 64) :: rest) 0 0 0
  = (out ← a2b_loop rest 0 0 0; Ok (x :: y :: z :: out)).
Proof.
  pose proof (to_N_lt x). pose proof (to_N_lt y). pose proof (to_N_lt z).
  rewrite !a2b_loop_char by dlia.
  destruct (a2b_loop rest 0 0 0) as [out|e]; [| reflexivity]. cbn.
  replace (Byte.to_N x / 4 * 4 + (Byte.to_N x mod 4 * 16 + Byte.to_N y / 16) / 16)
    with (Byte.to_N x) by dlia.
  replace ((Byte.to_N x mod 4 * 16 + Byte.to_N y / 16) mod 16 * 16
           + (Byte.to_N y mod 16 * 4 + Byte.to_N z / 64) / 4)
    with (Byte.to_N y) by dlia.
  replace ((Byte.to_N y mod 16 * 4 + Byte.to_N z / 64) mod 4 * 64 + Byte.to_N z mod 64)
    with (Byte.to_N z) by dlia.
  now rewrite !byte_of_N_to_N.
Qed.

Lemma a2b_loop_tail1 x :
  a2b_loop [b2a (Byte.to_N x / 4); b2a (Byte.to_N x mod 4 * 16); PAD; PAD] 0 0 0 = Ok [x].
Proof.
  pose proof (to_N_lt x).
  rewrite !a2b_loop_char by dlia. cbn.
  replace (Byte.to_N x / 4 * 4 + Byte.to_N x mod 4 * 16 / 16) with (Byte.to_N x) by dlia.
  now rewrite byte_of_N_to_N.
Qed.

Lemma a2b_loop_tail2 x y :
  a2b_loop [b2a (Byte.to_N x / 4); b2a (Byte.to_N x mod 4 * 16 + Byte.to_N y / 16);
            b2a (Byte.to_N y mod 16 * 4); PAD] 0 0 0 = Ok [x; y].
Proof.
  pose proof (to_N_lt x). pose proof (to_N_lt y).
  rewrite !a2b_loop_char by dlia. cbn.
  replace (Byte.to_N x / 4 * 4 + (Byte.to_N x mod 4 * 16 + Byte.to_N y / 16) / 16)
    with (Byte.to_N x) by dlia.
  replace ((Byte.to_N x mod 4 * 16 + Byte.to_N y / 16) mod 16 * 16 + Byte.to_N y mod 16 * 4 / 4)
    with (Byte.to_N y) by dlia.
  now rewrite !byte_of_N_to_N.
Qed.

(** Lists three elements at a time. *)
Lemma list_ind3 {A} (P : list A → Prop) :
  P [] → (∀ x, P [x]) → (∀ x y, P [x; y]) →
  (∀ x y z r, P r → P (x :: y :: z :: r)) →
  ∀ l, P l.
Proof.
  intros H0 H1 H2 H3.
  assert (H : ∀ l, P l ∧ (∀ x, P (x :: l)) ∧ (∀ x y, P (x :: y :: l))).
  { induction l as [|a l (IH0 & IH1 & IH2)]; [auto |].
    split; [apply IH1 |]. split; [intros; apply IH2 |]. intros. now apply H3. }
  intros l. apply H.
Qed.

(** [a2b_base64] inverts [b64encode]. *)
Lemma a2b_b64encode (s : bytes) : a2b_base64 (b64encode s) = Ok s.
Proof.
  unfold a2b_base64. induction s as [|x|x y|x y z r IH] using list_ind3.
  - reflexivity.
  - apply a2b_loop_tail1.
  - apply a2b_loop_tail2.
  - cbn [b64encode]. cbv zeta. rewrite a2b_loop_quad, IH. reflexivity.
Qed.

Lemma b64encode_ascii (s : bytes) : Forall is_ascii (b64encode s).
Proof.
  induction s as [|x|x y|x y z r IH] using list_ind3; cbn [b64encode]; cbv zeta.
  1: constructor.
  all: pose proof (to_N_lt x).
  2,3: pose proof (to_N_lt y).
  3: pose proof (to_N_lt z).
  all: repeat first [ apply Forall_cons; split | apply Forall_nil_2 | exact IH
                    | apply PAD_not_alphabet | apply b2a_spec; dlia ].
Qed.

(** [b64decode] applied to the text of [b64encode] gives the bytes back. *)
Lemma b64decode_b64encode (s : bytes) :
  b64decode (map Byte.to_N (b64encode s)) = Ok s.
Proof.
  unfold b64decode. rewrite ascii_encode_bytes by apply b64encode_ascii.
  apply a2b_b64encode.
Qed.

End Base64_facts.

(** ** The reference library meets the contract *)

Lemma bit_length_pow2 (bits x : Z) :
  0 < bits → 2 ^ (bits - 1) ≤ x < 2 ^ bits → bit_length x = bits.
Proof.
  intros Hb [Hlo Hhi]. unfold bit_length.
  assert (0 < 2 ^ (bits - 1)) by (apply Z.pow_pos_nonneg; lia).
  destruct (Z.eqb_spec x 0); [lia |].
  rewrite Z.abs_eq by lia.
  rewrite (Z.log2_unique x (bits - 1)); [lia | lia |].
  split; [done |]. now replace (Z.succ (bits - 1)) with bits by lia.
Qed.

Lemma Ok_inj {A} (a b : A) : Ok a = Ok b → a = b.
Proof. now intros [= ->]. Qed.

Module RefFacts.
Import Ref.

Lemma read_write_pos (p : positive) (rest : bytes) :
  read_pos (write_pos p ++ ";"%byte :: rest) = Some (p, rest).
Proof.
  induction p as [p IH|p IH|]; cbn [write_pos app read_pos].
  - change (("1" =? "1")%byte) with true. cbv iota.
    destruct p; cbn [write_pos app] in *;
      (change ((";" =? ";")%byte) with true || idtac);
      first [ change (("1" =? ";")%byte) with false | change (("0" =? ";")%byte) with false ];
      cbv iota; now rewrite IH.
  - change (("0" =? "1")%byte) with false. change (("0" =? "0")%byte) with true.
    cbv iota. now rewrite IH.
  - reflexivity.
Qed.

Lemma ref_import_export (k : key) : import (export k) = Ok k.
Proof.
  destruct k as [pn pe f]. unfold export, import. cbn [n e priv].
  rewrite read_write_pos. rewrite read_write_pos.
  now destruct f.
Qed.

Lemma length_le_bytes (len : nat) (z : Z) : length (le_bytes len z) = len.
Proof. revert z. induction len; intros; cbn; auto. Qed.

Lemma skip_zeros_pad (k : nat) (m : bytes) :
  skip_zeros (repeat x00 k ++ x01 :: m) = x01 :: m.
Proof. induction k; cbn; auto. Qed.

Lemma generate_inv bits ex r k :
  generate bits ex r = Ok k →
  1024 ≤ bits ∧ 3 ≤ ex ∧ Z.odd ex = true
  ∧ k = Key (Z.to_pos (2 ^ (bits - 1) + r mod 2 ^ (bits - 1))) (Z.to_pos ex) true.
Proof.
  unfold generate. destruct (Z.ltb_spec bits 1024); [discriminate |].
  destruct (Z.even ex) eqn:Hev; [discriminate |].
  destruct (Z.ltb_spec ex 3); [discriminate |]. cbn. intros [= <-].
  rewrite <- Z.negb_even, Hev. auto.
Qed.

Lemma modulus_range bits r :
  1024 ≤ bits →
  2 ^ (bits - 1) ≤ 2 ^ (bits - 1) + r mod 2 ^ (bits - 1) < 2 ^ bits.
Proof.
  intros Hb.
  assert (0 < 2 ^ (bits - 1)) by (apply Z.pow_pos_nonneg; lia).
  pose proof (Z.mod_pos_bound r (2 ^ (bits - 1)) ltac:(lia)).
  replace (2 ^ bits) with (2 * 2 ^ (bits - 1)); [lia |].
  rewrite <- Z.pow_succ_r by lia. f_equal. lia.
Qed.

Lemma ref_decrypt_encrypt k m r c :
  priv k = true → encrypt (public k) m r = Ok c → decrypt k c = Ok m.
Proof.
  intros Hpriv. unfold encrypt.
  change (size (public k)) with (size k). change (tag (public k)) with (tag k).
  set (ps_len := size k - Z.of_nat (length m) - 2 * hLen - 2).
  destruct (Z.ltb_spec ps_len 0) as [|Hps]; [discriminate |]. intros <-%Ok_inj.
  unfold decrypt, hLen in *.
  assert (Hlen : Z.of_nat (length (x00 :: le_bytes 20 r ++ tag k
                  ++ repeat x00 (Z.to_nat ps_len) ++ x01 :: m)) = size k).
  { cbn [length]. rewrite !length_app. unfold tag. rewrite !length_le_bytes, repeat_length.
    cbn [length]. lia. }
  rewrite Hlen, Z.eqb_refl. cbn [negb orb].
  destruct (Z.ltb_spec (size k) (20 + 2)); [lia |].
  rewrite Hpriv. cbn [negb].
  rewrite drop_app_length' by (symmetry; apply length_le_bytes).
  rewrite take_app_length' by (symmetry; apply length_le_bytes).
  rewrite drop_app_length' by (symmetry; apply length_le_bytes).
  rewrite bool_decide_eq_true_2 by reflexivity.
  rewrite skip_zeros_pad. reflexivity.
Qed.

Lemma size_in_bytes_eq (k : key) : size_in_bytes (L := lib) k = size k.
Proof. reflexivity. Qed.

Lemma oaep_capacity_eq (k : key) :
  oaep_capacity (L := lib) k = size k - 2 * hLen - 2.
Proof. reflexivity. Qed.

#[global] Instance laws : CryptoLibLaws lib.
Proof.
  split; cbn [RSA_generate key_n key_e has_private publickey export_key import_key
              OAEP_decrypt Rand RsaKey lib].
  - intros bits ex r Hb. unfold generate.
    destruct (Z.ltb_spec bits 1024); [eauto | lia].
  - intros bits ex r Hb Hodd He. unfold generate.
    destruct (Z.ltb_spec bits 1024); [lia |].
    rewrite <- Z.negb_odd, Hodd. destruct (Z.ltb_spec ex 3); [lia |]. cbn. eexists; eauto.
  - intros bits ex r k (Hb & He & _ & ->)%generate_inv. cbn [priv e].
    rewrite Z2Pos.id by lia. done.
  - intros k. done.
  - apply ref_import_export.
  - intros k c ex Hpriv. unfold decrypt. rewrite Hpriv. cbn [negb].
    repeat match goal with
    | |- context [if ?b then _ else _] => destruct b
    | |- context [match ?l with [] => _ | _ :: _ => _ end] => destruct l
    end; intros [= <-]; unfold incorrect; eauto.
Qed.

#[global] Instance spec_laws : CryptoLibSpec lib.
Proof.
  split; cbn [RSA_generate key_n publickey OAEP_encrypt OAEP_decrypt Rand RsaKey lib].
  - intros bits ex r k (Hb & He & _ & ->)%generate_inv. cbn [n].
    pose proof (modulus_range bits r Hb) as Hn.
    assert (0 < 2 ^ (bits - 1)) by (apply Z.pow_pos_nonneg; lia).
    rewrite Z2Pos.id by lia. apply bit_length_pow2; lia.
  - intros k m r Hlong. rewrite oaep_capacity_eq in Hlong. unfold encrypt.
    destruct (Z.ltb_spec (size k - Z.of_nat (length m) - 2 * hLen - 2) 0);
      [eauto | lia].
  - intros k m r Hfit. rewrite oaep_capacity_eq in Hfit. rewrite size_in_bytes_eq.
    unfold encrypt.
    destruct (Z.ltb_spec (size k - Z.of_nat (length m) - 2 * hLen - 2) 0);
      [lia |].
    eexists. split; [reflexivity |].
    cbn [length]. rewrite !length_app. unfold tag. rewrite !length_le_bytes, repeat_length.
    cbn [length]. unfold hLen in *. lia.
  - intros k c Hlen. rewrite size_in_bytes_eq in Hlen.
    unfold decrypt. destruct (Z.eqb_spec (Z.of_nat (length c)) (size k)); [lia |].
    cbn. eauto.
  - intros bits ex r k m r' c (_ & _ & _ & ->)%generate_inv. now apply ref_decrypt_encrypt.
Qed.

End RefFacts.

(** ** The module, over any library that meets the contract

    The statements of this section hold for every library of which
    [CryptoLibLaws] and [CryptoLibSpec] hold, and each uses only the
    assumptions its proof needs.  What is proved is what the module adds to
    the library: the encodings on both sides of the cipher, the exports, the
    arguments it passes and the exceptions it lets through. *)

Lemma key_sizes_spec (s : Z) : s ∈ key_sizes ↔ s = 2048 ∨ s = 3072 ∨ s = 4096.
Proof. unfold key_sizes. rewrite !elem_of_cons, elem_of_nil. tauto. Qed.

Section Module_facts.

Context {L : CryptoLib} {LL : CryptoLibLaws L} {LS : CryptoLibSpec L}.

(** What [generate_rsa_keys] returns is the key of [RSA.generate] and its two
    exports; it fails exactly when [RSA.generate] does, with its exception. *)
Lemma generate_rsa_keys_inv key_size rnd private_key public_key key :
  generate_rsa_keys key_size rnd = Ok (private_key, public_key, key) →
  RSA_generate (default 2048 key_size) RSA_generate_default_e rnd = Ok key
  ∧ private_key = export_key key ∧ public_key = export_key (publickey key).
Proof.
  unfold generate_rsa_keys. intros H.
  apply bind_Ok in H as (k & Hk & H). apply Ok_inj in H. now simplify_eq.
Qed.

Lemma generate_rsa_keys_raise key_size rnd e :
  generate_rsa_keys key_size rnd = Raise e ↔
  RSA_generate (default 2048 key_size) RSA_generate_default_e rnd = Raise e.
Proof.
  unfold generate_rsa_keys.
  destruct (RSA_generate _ _ _) as [k|e']; cbn; split; congruence.
Qed.

(** From 1024 bits on a key pair is returned. *)
Lemma generate_rsa_keys_returns (bits : Z) (rnd : Rand) :
  1024 ≤ bits →
  ∃ key, generate_rsa_keys (Some bits) rnd
           = Ok (export_key key, export_key (publickey key), key)
         ∧ RSA_generate bits RSA_generate_default_e rnd = Ok key.
Proof.
  intros Hb.
  destruct (generate_returns bits RSA_generate_default_e rnd Hb) as [key Hk];
    [reflexivity | unfold RSA_generate_default_e; lia |].
  exists key. split; [| exact Hk].
  unfold generate_rsa_keys. cbn. now rewrite Hk.
Qed.

Lemma size_in_bytes_publickey (k : RsaKey) :
  size_in_bytes (publickey k) = size_in_bytes k.
Proof. unfold size_in_bytes. now destruct (publickey_key k) as (-> & _). Qed.

(** [encrypt_message] under a key that imports: the outcome is that of the
    library on the encoded message, rendered as Base64 text. *)
Lemma encrypt_message_Ok message public_key rnd k data c :
  import_key public_key = Ok k → Utf8.encode message = Ok data →
  OAEP_encrypt k data rnd = Ok c →
  encrypt_message message public_key rnd = Ok (map Byte.to_N (Base64.b64encode c)).
Proof.
  intros Hk Hd Hc. unfold encrypt_message. rewrite Hk. cbn. rewrite Hd. cbn.
  rewrite Hc. cbn. apply decode_ascii, b64encode_ascii.
Qed.

Lemma encrypt_message_Raise message public_key rnd k data e :
  import_key public_key = Ok k → Utf8.encode message = Ok data →
  OAEP_encrypt k data rnd = Raise e →
  encrypt_message message public_key rnd = Raise e.
Proof.
  intros Hk Hd Hc. unfold encrypt_message. rewrite Hk. cbn. rewrite Hd. cbn.
  now rewrite Hc.
Qed.

(** [decrypt_message] on the text of a ciphertext. *)
Lemma decrypt_message_b64 c private_key k :
  import_key private_key = Ok k →
  decrypt_message (map Byte.to_N (Base64.b64encode c)) private_key
  = (decrypted ← OAEP_decrypt k c; Utf8.decode decrypted).
Proof.
  intros Hk. unfold decrypt_message. rewrite Hk. cbn.
  now rewrite b64decode_b64encode.
Qed.

(** C1: for each supported size and each plaintext whose UTF-8 encoding fits
    the OAEP capacity of the modulus, [generate_rsa_keys] returns a pair, and
    decrypting with its private key what [encrypt_message] produced under its
    public key gives the plaintext back. *)
Theorem roundtrip (key_size : Z) (rnd rnd' : Rand) (m : str) (data : bytes) :
  key_size ∈ key_sizes →
  wf_str m → Utf8.encode m = Ok data →
  Z.of_nat (length data) ≤ key_size / 8 - 2 * digest_size - 2 →
  ∃ private_key public_key key c,
    generate_rsa_keys (Some key_size) rnd = Ok (private_key, public_key, key)
    ∧ encrypt_message m public_key rnd' = Ok c
    ∧ decrypt_message c private_key = Ok m.
Proof.
  intros Hsize Hwf Hdata Hfit.
  assert (Hb : 1024 ≤ key_size ∧ (key_size + 7) / 8 = key_size / 8).
  { apply key_sizes_spec in Hsize as [-> | [-> | ->]]; split; (lia || reflexivity). }
  destruct Hb as [Hb Hbytes].
  destruct (generate_rsa_keys_returns key_size rnd Hb) as (key & Hgen & Hk).
  pose proof (generate_modulus _ _ _ _ Hk) as Hn.
  assert (Hcap : Z.of_nat (length data) ≤ oaep_capacity (publickey key)).
  { unfold oaep_capacity. rewrite size_in_bytes_publickey. unfold size_in_bytes.
    rewrite Hn, Hbytes. exact Hfit. }
  destruct (encrypt_returns (publickey key) data rnd' Hcap) as (c & Hc & _).
  exists (export_key key), (export_key (publickey key)), key,
    (map Byte.to_N (Base64.b64encode c)).
  split; [exact Hgen |]. split.
  - eapply encrypt_message_Ok; eauto using import_export.
  - rewrite (decrypt_message_b64 c _ key) by apply import_export.
    rewrite (decrypt_encrypt _ _ _ _ _ _ _ Hk Hc). cbn.
    now apply decode_encode.
Qed.

(** C3: under a public key that imports, a plaintext whose encoding has
    exactly k - 2 hLen - 2 bytes (k the modulus length in bytes, hLen the
    digest size of the OAEP hash) is encrypted, and a plaintext whose
    encoding is one byte longer is refused with the [ValueError] of the
    library, the exception that stands for the payload-too-large error. *)
Theorem capacity_boundary (public_key : bytes) (k : RsaKey) (rnd : Rand)
    (m m' : str) (data data' : bytes) :
  import_key public_key = Ok k →
  Utf8.encode m = Ok data →
  Z.of_nat (length data) = size_in_bytes k - 2 * digest_size - 2 →
  Utf8.encode m' = Ok data' →
  Z.of_nat (length data') = size_in_bytes k - 2 * digest_size - 2 + 1 →
  returns (encrypt_message m public_key rnd)
  ∧ ∃ msg, encrypt_message m' public_key rnd = Raise (ValueError msg).
Proof.
  intros Hk Hd Hlen Hd' Hlen'. split.
  - destruct (encrypt_returns k data rnd) as (c & Hc & _).
    { unfold oaep_capacity. lia. }
    eexists. eapply encrypt_message_Ok; eauto.
  - destruct (encrypt_too_long k data' rnd) as (msg & Hc).
    { unfold oaep_capacity. lia. }
    exists msg. eapply encrypt_message_Raise; eauto.
Qed.

(** C2, as the code has it: [generate_rsa_keys] checks nothing itself.  A
    size below 1024 is refused by [RSA.generate] with a [ValueError]; from
    1024 on, whether or not the size is one of 2048, 3072 and 4096, a key
    pair is returned. *)
Theorem key_size_validation (bits : Z) (rnd : Rand) :
  (bits < 1024 → ∃ msg, generate_rsa_keys (Some bits) rnd = Raise (ValueError msg))
  ∧ (1024 ≤ bits → returns (generate_rsa_keys (Some bits) rnd)).
Proof.
  split; intros Hb.
  - destruct (generate_too_small bits RSA_generate_default_e rnd Hb) as (msg & H).
    exists msg. now apply generate_rsa_keys_raise.
  - destruct (generate_rsa_keys_returns bits rnd Hb) as (key & Hgen & _).
    eexists. exact Hgen.
Qed.

(** C5: for each of 2048, 3072 and 4096, [generate_rsa_keys] returns, and the
    modulus of the key object has exactly that many bits; so have the moduli
    read back from the two exported halves. *)
Theorem modulus_bit_length (key_size : Z) (rnd : Rand) :
  key_size ∈ key_sizes →
  ∃ private_key public_key key,
    generate_rsa_keys (Some key_size) rnd = Ok (private_key, public_key, key)
    ∧ bit_length (key_n key) = key_size
    ∧ (∃ k, import_key private_key = Ok k ∧ bit_length (key_n k) = key_size)
    ∧ (∃ k, import_key public_key = Ok k ∧ bit_length (key_n k) = key_size).
Proof.
  intros Hsize.
  assert (Hb : 1024 ≤ key_size).
  { apply key_sizes_spec in Hsize as [-> | [-> | ->]]; lia. }
  destruct (generate_rsa_keys_returns key_size rnd Hb) as (key & Hgen & Hk).
  pose proof (generate_modulus _ _ _ _ Hk) as Hn.
  exists (export_key key), (export_key (publickey key)), key.
  split; [exact Hgen |]. split; [exact Hn |]. split.
  - exists key. split; [apply import_export | exact Hn].
  - exists (publickey key). split; [apply import_export |].
    now destruct (publickey_key key) as (-> & _).
Qed.

(** C6: whatever the size, the key of a pair that [generate_rsa_keys] returns
    has public exponent 65537, and so has the exported public half. *)
Theorem public_exponent (key_size : option Z) (rnd : Rand)
    (private_key public_key : bytes) (key : RsaKey) :
  generate_rsa_keys key_size rnd = Ok (private_key, public_key, key) →
  key_e key = 65537
  ∧ ∃ k, import_key public_key = Ok k ∧ key_e k = 65537.
Proof.
  intros (Hk & -> & ->)%generate_rsa_keys_inv.
  destruct (generate_key _ _ _ _ Hk) as (_ & He).
  split; [exact He |].
  exists (publickey key). split; [apply import_export |].
  destruct (publickey_key key) as (_ & -> & _). exact He.
Qed.

(** C9: a call without the size argument is a call with 2048: it asks
    [RSA.generate] for 2048 bits and returns a key whose modulus has 2048
    bits. *)
Theorem default_key_size (rnd : Rand) :
  generate_rsa_keys None rnd = generate_rsa_keys (Some 2048) rnd
  ∧ ∃ private_key public_key key,
      generate_rsa_keys None rnd = Ok (private_key, public_key, key)
      ∧ RSA_generate 2048 RSA_generate_default_e rnd = Ok key
      ∧ bit_length (key_n key) = 2048.
Proof.
  split; [reflexivity |].
  destruct (generate_rsa_keys_returns 2048 rnd ltac:(lia)) as (key & Hgen & Hk).
  pose proof (generate_modulus _ _ _ _ Hk) as Hn.
  eauto 7.
Qed.

End Module_facts.

(** ** The security table *)

Lemma security_info_lookup (key_size : Z) :
  security_info !! key_size =
    if decide (key_size = 2048) then Some tier_2048
    else if decide (key_size = 3072) then Some tier_3072
    else if decide (key_size = 4096) then Some tier_4096
    else None.
Proof.
  unfold security_info.
  repeat (case_decide; [subst; by simplify_map_eq |]).
  by simplify_map_eq.
Qed.

(** C7: the entry for 2048 has security strength 112, and a size that the
    table does not list gets the empty dictionary, which no listed size
    gets. *)
Theorem policy_lookup :
  get_security_level 2048 !! "security_bits" = Some (VInt 112)
  ∧ ∀ key_size : Z, key_size ∉ key_sizes ↔ get_security_level key_size = ∅.
Proof.
  split; [reflexivity |].
  intros key_size. unfold get_security_level.
  rewrite security_info_lookup, key_sizes_spec.
  assert (Hne : ∀ d : gmap string pyval,
            is_Some (d !! "security_bits") → d ≠ ∅).
  { intros d [v Hv] ->. by rewrite lookup_empty in Hv. }
  repeat case_decide; subst; cbn [default].
  1-3: split; [intros Hn; exfalso; apply Hn; auto | intros Hd; exfalso].
  1-3: by apply Hne in Hd; [| eexists; reflexivity].
  split; [done | intros _ [? | [? | ?]]; done].
Qed.

Lemma alloc_spec (d : gmap string pyval) (h : store) :
  h !! (alloc d h).1 = None ∧ (alloc d h).2 = <[(alloc d h).1 := d]> h.
Proof.
  unfold alloc. cbn. split; [| reflexivity].
  apply not_elem_of_dom, is_fresh.
Qed.

(** The call on the store: it writes to no dictionary that was live before,
    and the dictionary it hands out is a new one whose contents are the
    by-value result, whatever the store was. *)
Lemma get_security_level_ref_spec (key_size : Z) (h : store) :
  let '(l, h') := get_security_level_ref key_size h in
  (h !! l = None ∧ h ⊆ h' ∧ h' !! l = Some (get_security_level key_size)).
Proof.
  unfold get_security_level_ref, get_security_level.
  destruct (alloc tier_2048 h) as [l1 h1] eqn:E1.
  destruct (alloc tier_3072 h1) as [l2 h2] eqn:E2.
  destruct (alloc tier_4096 h2) as [l3 h3] eqn:E3.
  destruct (alloc ∅ h3) as [l4 h4] eqn:E4.
  pose proof (alloc_spec tier_2048 h) as [F1 S1]. rewrite E1 in F1, S1. cbn in F1, S1.
  pose proof (alloc_spec tier_3072 h1) as [F2 S2]. rewrite E2 in F2, S2. cbn in F2, S2.
  pose proof (alloc_spec tier_4096 h2) as [F3 S3]. rewrite E3 in F3, S3. cbn in F3, S3.
  pose proof (alloc_spec ∅ h3) as [F4 S4]. rewrite E4 in F4, S4. cbn in F4, S4.
  assert (H12 : h ⊆ h1) by (subst h1; now apply insert_subseteq).
  assert (H23 : h1 ⊆ h2) by (subst h2; now apply insert_subseteq).
  assert (H34 : h2 ⊆ h3) by (subst h3; now apply insert_subseteq).
  assert (H45 : h3 ⊆ h4) by (subst h4; now apply insert_subseteq).
  assert (L1 : h1 !! l1 = Some tier_2048) by (subst h1; apply lookup_insert_eq).
  assert (L2 : h2 !! l2 = Some tier_3072) by (subst h2; apply lookup_insert_eq).
  assert (L3 : h3 !! l3 = Some tier_4096) by (subst h3; apply lookup_insert_eq).
  assert (L4 : h4 !! l4 = Some ∅) by (subst h4; apply lookup_insert_eq).
  assert (Hsub : h ⊆ h4) by (repeat (etrans; [eassumption |]); done).
  assert (None_below : ∀ (a b : store) l, a ⊆ b → b !! l = None → a !! l = None).
  { intros a b l Hab Hb. destruct (a !! l) eqn:Ha; [| done].
    eapply lookup_weaken in Ha; [| exact Hab]. congruence. }
  rewrite security_info_lookup.
  assert (Htable : (<[2048:=l1]> (<[3072:=l2]> (<[4096:=l3]> (∅ : gmap Z loc)))) !! key_size
    = if decide (key_size = 2048) then Some l1
      else if decide (key_size = 3072) then Some l2
      else if decide (key_size = 4096) then Some l3 else None).
  { repeat (case_decide; [subst; by simplify_map_eq |]). by simplify_map_eq. }
  rewrite Htable.
  repeat case_decide; cbn [default]; (split; [| split; [exact Hsub |]]).
  - done.
  - eapply lookup_weaken; [exact L1 |]. repeat (etrans; [eassumption |]); done.
  - eauto.
  - eapply lookup_weaken; [exact L2 |]. repeat (etrans; [eassumption |]); done.
  - eauto.
  - eapply lookup_weaken; [exact L3 |]. done.
  - eauto.
  - exact L4.
Qed.

(** C10: the entries for 3072 and 4096, and the lookup as a read-only
    operation: on any store, it changes no dictionary that existed before the
    call and hands out a new dictionary holding the by-value result, so no
    call can see the effects of an earlier one or of what a caller did to a
    result. *)
Theorem security_table_contents :
  get_security_level 3072 !! "security_bits" = Some (VInt 128)
  ∧ get_security_level 3072 !! "level" = Some (VStr "High Security")
  ∧ get_security_level 4096 !! "security_bits" = Some (VInt 152)
  ∧ get_security_level 4096 !! "level" = Some (VStr "Maximum Security")
  ∧ ∀ (key_size : Z) (h : store),
      ((get_security_level_ref key_size h).1 ∉ dom h)
      ∧ h ⊆ (get_security_level_ref key_size h).2
      ∧ (get_security_level_ref key_size h).2 !! (get_security_level_ref key_size h).1
        = Some (get_security_level key_size).
Proof.
  do 4 (split; [reflexivity |]).
  intros key_size h. pose proof (get_security_level_ref_spec key_size h) as H.
  destruct (get_security_level_ref key_size h) as [l h'].
  destruct H as (H1 & H2 & H3). split; [| done]. by apply not_elem_of_dom.
Qed.

(** ** How decryption fails *)

Lemma a2b_loop_raise data q left pads e :
  Base64.a2b_loop data q left pads = Raise e → ∃ msg, e = BinasciiError msg.
Proof.
  revert q left pads. induction data as [|ch rest IH]; intros q left pads; cbn [Base64.a2b_loop].
  - destruct q as [|[|q]]; [discriminate | |]; intros [= <-]; eauto.
  - repeat match goal with
    | |- context [if ?b then _ else _] => destruct b
    | |- context [match Base64.a2b ?c with _ => _ end] => destruct (Base64.a2b c)
    | |- context [match q with _ => _ end] => destruct q as [|[|[|q]]]
    end; try discriminate; try apply IH.
    all: destruct (Base64.a2b_loop rest _ _ _) eqn:E; cbn; [discriminate |].
    all: intros [= <-]; eapply IH; eassumption.
Qed.

Lemma b64decode_raise s e : Base64.b64decode s = Raise e → is_ValueError e = true.
Proof.
  unfold Base64.b64decode.
  destruct (Base64.ascii_encode s) as [data|e'] eqn:E; cbn.
  - intros (msg & ->)%a2b_loop_raise. reflexivity.
  - intros [= <-]. revert e' E. induction s as [|c s IH]; intros e'; cbn; [discriminate |].
    destruct (c <? 128)%N; [| now intros [= <-]].
    destruct (Base64.ascii_encode s); cbn; [discriminate |]. intros [= <-]. eauto.
Qed.

Lemma utf8_decode_raise bs e : Utf8.decode bs = Raise e → e = UnicodeDecodeError.
Proof.
  remember (length bs) as len eqn:Hlen.
  revert bs Hlen. induction len as [len IH] using lt_wf_ind. intros bs ->.
  destruct bs as [|b0 r0]; [discriminate |]. cbn [Utf8.decode]. cbv zeta.
  assert (Hrec : ∀ r (c : N), (length r < length (b0 :: r0))%nat →
            (Utf8.decode r ≫= λ s, Ok (c :: s)) = Raise e → e = UnicodeDecodeError).
  { intros r c Hr. destruct (Utf8.decode r) eqn:E; cbn; [discriminate |].
    intros [= <-]. eapply IH; [exact Hr | reflexivity | exact E]. }
  repeat match goal with
  | |- context [if ?b then _ else _] => destruct b
  | |- context [match Utf8.cont ?c with _ => _ end] => destruct (Utf8.cont c)
  | |- context [match ?l with [] => _ | _ :: _ => _ end] => destruct l
  end; try (intros [= <-]; reflexivity); apply Hrec; cbn; lia.
Qed.

Section Decrypt_facts.

Context {L : CryptoLib} {LL : CryptoLibLaws L} {LS : CryptoLibSpec L}.

(** A ciphertext whose decoded length is not the modulus length in bytes is
    refused with [ValueError]. *)
Lemma decrypt_message_wrong_length encrypted_message private_key k encrypted_bytes :
  import_key private_key = Ok k →
  Base64.b64decode encrypted_message = Ok encrypted_bytes →
  Z.of_nat (length encrypted_bytes) ≠ size_in_bytes k →
  ∃ msg, decrypt_message encrypted_message private_key = Raise (ValueError msg).
Proof.
  intros Hk Hb Hlen. destruct (decrypt_wrong_length k _ Hlen) as (msg & Hd).
  exists msg. unfold decrypt_message. rewrite Hk. cbn. rewrite Hb. cbn. now rewrite Hd.
Qed.

(** Under a private key, whatever makes [decrypt_message] fail, the caller
    sees an instance of [ValueError]. *)
Lemma decrypt_message_raise encrypted_message private_key k e :
  import_key private_key = Ok k → has_private k = true →
  decrypt_message encrypted_message private_key = Raise e →
  is_ValueError e = true.
Proof.
  intros Hk Hp. unfold decrypt_message. rewrite Hk. cbn.
  destruct (Base64.b64decode encrypted_message) as [bs|e1] eqn:E1; cbn.
  2: { intros [= <-]. eapply b64decode_raise, E1. }
  destruct (OAEP_decrypt k bs) as [d|e2] eqn:E2; cbn.
  2: { intros [= <-]. now destruct (decrypt_raises k bs e2 Hp E2) as (msg & ->). }
  intros ->%utf8_decode_raise. reflexivity.
Qed.

(** Two runs of [encrypt_message] give the same text exactly when the library
    gave the same ciphertext: the Base64 rendering loses nothing. *)
Lemma encrypt_message_text_inj c c' :
  map Byte.to_N (Base64.b64encode c) = map Byte.to_N (Base64.b64encode c') → c = c'.
Proof.
  intros H. apply Ok_inj. rewrite <- (b64decode_b64encode c), H.
  apply b64decode_b64encode.
Qed.

End Decrypt_facts.

(** ** The theorems at the sample inputs *)

Lemma wf_str_check (s : str) : forallb (λ c, (c <=? 0x10FFFF)%N) s = true → wf_str s.
Proof.
  intros H. apply List.Forall_forall. intros c Hc.
  apply N.leb_le. revert c Hc. now apply forallb_forall.
Qed.

(** The round trip of the message of [test_rsa_implementation] under a
    2048-bit pair. *)
Lemma roundtrip_sample :
  ∃ private_key public_key key c,
    generate_rsa_keys (L := Ref.lib) (Some 2048) key_draw = Ok (private_key, public_key, key)
    ∧ encrypt_message plaintext public_key seed_draw = Ok c
    ∧ decrypt_message c private_key = Ok plaintext.
Proof.
  apply (roundtrip (LL := RefFacts.laws) (LS := RefFacts.spec_laws)
           2048 key_draw seed_draw plaintext (encoded plaintext)).
  - apply key_sizes_spec. lia.
  - apply wf_str_check. vm_compute. reflexivity.
  - vm_compute. reflexivity.
  - vm_compute. discriminate.
Defined.

(** 214 bytes are encrypted under a 2048-bit key, 215 are refused. *)
Lemma capacity_boundary_sample :
  returns (encrypt_message (L := Ref.lib) full_message
             (Ref.export (Ref.public sample_key)) seed_draw)
  ∧ ∃ msg, encrypt_message (L := Ref.lib) long_message
             (Ref.export (Ref.public sample_key)) seed_draw
           = Raise (ValueError msg).
Proof.
  apply (capacity_boundary (LS := RefFacts.spec_laws) _ (Ref.public sample_key) seed_draw
           full_message long_message (encoded full_message) (encoded long_message)).
  - apply RefFacts.ref_import_export.
  - vm_compute. reflexivity.
  - vm_compute. reflexivity.
  - vm_compute. reflexivity.
  - vm_compute. reflexivity.
Defined.

(** 1023 bits are refused, 1024 bits give a key pair. *)
Lemma key_size_validation_sample :
  (∃ msg, generate_rsa_keys (L := Ref.lib) (Some 1023) key_draw = Raise (ValueError msg))
  ∧ returns (generate_rsa_keys (L := Ref.lib) (Some 1024) key_draw).
Proof.
  split.
  - apply (key_size_validation (LL := RefFacts.laws) 1023 key_draw). lia.
  - apply (key_size_validation (LL := RefFacts.laws) 1024 key_draw). lia.
Defined.

(** C2 as stated fails: 1024 is not a supported size, and it is accepted.
    [RSA.generate] admits every size from 1024 on and the module adds no
    check of its own; on the reference library, which behaves as documented,
    the call with 1024 returns a key pair. *)
Lemma unsupported_size_accepted :
  (1024 ∉ key_sizes)
  ∧ returns (generate_rsa_keys (L := Ref.lib) (Some 1024) key_draw)
  ∧ ¬ (∀ L : CryptoLib, CryptoLibLaws L → CryptoLibSpec L →
       ∀ (bits : Z) (rnd : Rand),
         bits ∉ key_sizes → raises (generate_rsa_keys (Some bits) rnd)).
Proof.
  assert (H1024 : 1024 ∉ key_sizes) by (rewrite key_sizes_spec; lia).
  split; [exact H1024 |]. split.
  - eexists. vm_compute. reflexivity.
  - intros H.
    destruct (H Ref.lib RefFacts.laws RefFacts.spec_laws 1024 key_draw H1024) as [e He].
    vm_compute in He. discriminate.
Qed.

(** A 4096-bit pair. *)
Lemma modulus_bit_length_sample :
  ∃ private_key public_key key,
    generate_rsa_keys (L := Ref.lib) (Some 4096) key_draw = Ok (private_key, public_key, key)
    ∧ bit_length (key_n key) = 4096
    ∧ (∃ k, import_key private_key = Ok k ∧ bit_length (key_n k) = 4096)
    ∧ (∃ k, import_key public_key = Ok k ∧ bit_length (key_n k) = 4096).
Proof.
  apply (modulus_bit_length (LL := RefFacts.laws) (LS := RefFacts.spec_laws) 4096 key_draw).
  apply key_sizes_spec. lia.
Defined.

(** The exponent of the sample key and of its exported public half. *)
Lemma public_exponent_sample :
  key_e (CryptoLib := Ref.lib) sample_key = 65537
  ∧ ∃ k, import_key (Ref.export (Ref.public sample_key)) = Ok k ∧ key_e k = 65537.
Proof.
  apply (public_exponent (LL := RefFacts.laws) (Some 2048) key_draw
           (Ref.export sample_key) (Ref.export (Ref.public sample_key)) sample_key).
  vm_compute. reflexivity.
Defined.

(** A call without the size argument. *)
Lemma default_key_size_sample :
  generate_rsa_keys (L := Ref.lib) None key_draw = generate_rsa_keys (Some 2048) key_draw
  ∧ ∃ private_key public_key key,
      generate_rsa_keys (L := Ref.lib) None key_draw = Ok (private_key, public_key, key)
      ∧ RSA_generate 2048 RSA_generate_default_e key_draw = Ok key
      ∧ bit_length (key_n key) = 2048.
Proof.
  exact (default_key_size (LL := RefFacts.laws) (LS := RefFacts.spec_laws) key_draw).
Defined.

(** 1024 is not listed in the table. *)
Lemma policy_lookup_sample : get_security_level 1024 = ∅.
Proof. apply (proj2 policy_lookup 1024). rewrite key_sizes_spec. lia. Defined.

(** ** The codecs on test vectors *)

Example utf8_ascii : Utf8.encode (str_of_string "Rs") = Ok ["R"; "s"]%byte.
Proof. reflexivity. Qed.

Example utf8_sinhala :
  Utf8.encode [0xDC0%N] = Ok [xe0; xb7; x80] ∧ Utf8.decode [xe0; xb7; x80] = Ok [0xDC0%N].
Proof. split; reflexivity. Qed.

Example utf8_surrogate : Utf8.encode [0xD800%N] = Raise UnicodeEncodeError.
Proof. reflexivity. Qed.

Example b64_vectors :
  Base64.b64encode (list_byte_of_string "foobar") = list_byte_of_string "Zm9vYmFy"
  ∧ Base64.b64encode (list_byte_of_string "fooba") = list_byte_of_string "Zm9vYmE="
  ∧ Base64.b64encode (list_byte_of_string "foob") = list_byte_of_string "Zm9vYg=="
  ∧ Base64.b64decode (str_of_string "Zm9v YmE=junk") = Ok (list_byte_of_string "fooba")
  ∧ Base64.b64decode (str_of_string "Zm9vY") = Raise (BinasciiError
      "Invalid base64-encoded string: number of data characters cannot be 1 more than a multiple of 4")
  ∧ Base64.b64decode (str_of_string "Zm9vYg=") = Raise (BinasciiError "Incorrect padding").
Proof. repeat split; reflexivity. Qed.

(** * More on the codecs *)

Section Base64_more.
Import Base64.
Local Open Scope N_scope.

Lemma length_b64encode (s : bytes) :
  (length (b64encode s) = 4 * ((length s + 2) / 3))%nat.
Proof.
  induction s as [|x|x y|x y z r IH] using list_ind3; try reflexivity.
  cbn [b64encode length]. cbv zeta. cbn [length]. rewrite IH.
  replace (S (S (S (length r))) + 2)%nat with (1 * 3 + (length r + 2))%nat by lia.
  rewrite Nat.div_add_l by lia. lia.
Qed.

Lemma is_text_table :
  forallb (λ n, bool_decide (significant (byte_of_N n) = is_text n))
    (map N.of_nat (seq 0 128)) = true.
Proof. vm_compute. reflexivity. Qed.

Lemma significant_is_text (c : N) :
  c < 128 → significant (byte_of_N c) = is_text c.
Proof.
  intros Hc.
  assert (Hin : In c (map N.of_nat (seq 0 128))).
  { apply in_map_iff. exists (N.to_nat c). split; [lia |]. apply in_seq. lia. }
  pose proof (proj1 (forallb_forall _ _) is_text_table c Hin) as H.
  now apply bool_decide_eq_true in H.
Qed.

Lemma is_text_ascii (c : N) : is_text c = true → c < 128.
Proof.
  unfold is_text. intros H.
  repeat match type of H with
  | (_ || _)%bool = true => apply orb_prop in H as [H | H]
  | (_ && _)%bool = true => apply andb_prop in H as [? H]
  end; repeat match goal with
  | H : (_ <=? _) = true |- _ => apply N.leb_le in H
  | H : (_ =? _) = true |- _ => apply N.eqb_eq in H
  end; lia.
Qed.

(** The decoding loop does not see the bytes it skips. *)
Lemma a2b_loop_filter (data : bytes) q left pads :
  a2b_loop (filter (λ ch, significant ch = true) data) q left pads
  = a2b_loop data q left pads.
Proof.
  revert q left pads. induction data as [|ch rest IH]; intros q left pads; [reflexivity |].
  rewrite filter_cons. destruct (decide (significant ch = true)) as [Hs|Hs].
  - cbn [a2b_loop].
    repeat match goal with
    | |- context [if ?b then _ else _] => destruct b
    | |- context [match a2b ?c with _ => _ end] => destruct (a2b c)
    | |- context [match q with _ => _ end] => destruct q as [|[|[|q]]]
    end; rewrite ?IH; reflexivity.
  - apply not_true_is_false in Hs. unfold significant in Hs.
    apply orb_false_elim in Hs as [Hpad Hv]. apply bool_decide_eq_false in Hv.
    cbn [a2b_loop]. rewrite Hpad.
    destruct (a2b ch) as [v|]; [exfalso; apply Hv; eauto |]. apply IH.
Qed.

Lemma ascii_encode_Ok (s : str) :
  Forall (λ c, c < 128) s → ascii_encode s = Ok (map byte_of_N s).
Proof.
  induction 1 as [|c s Hc _ IH]; [reflexivity |].
  cbn [ascii_encode map]. destruct (N.ltb_spec c 128); [| lia].
  now rewrite IH.
Qed.

Lemma ascii_encode_non_ascii (s : str) :
  Exists (λ c, 128 ≤ c) s →
  ascii_encode s
  = Raise (ValueError "string argument should contain only ASCII characters").
Proof.
  induction s as [|c s IH]; intros H; [by apply Exists_nil in H |].
  cbn [ascii_encode]. destruct (N.ltb_spec c 128) as [Hc|Hc]; [| reflexivity].
  apply Exists_cons in H as [H | H]; [lia |]. now rewrite IH.
Qed.

Lemma filter_is_text (s : str) :
  Forall (λ c, c < 128) s →
  map byte_of_N (filter (λ c, is_text c = true) s)
  = filter (λ ch, significant ch = true) (map byte_of_N s).
Proof.
  induction 1 as [|c s Hc _ IH]; [reflexivity |].
  cbn [map]. rewrite !filter_cons.
  pose proof (significant_is_text c Hc) as E.
  destruct (decide (is_text c = true)) as [Ht|Ht];
    destruct (decide (significant (byte_of_N c) = true)) as [Hg|Hg];
    try congruence.
  cbn [map]. now rewrite IH.
Qed.

(** [b64decode] gives the same on a text and on the text without the
    characters that are neither of the alphabet nor the pad. *)
Lemma b64decode_filter (s : str) :
  Forall (λ c, c < 128) s →
  b64decode (filter (λ c, is_text c = true) s) = b64decode s.
Proof.
  intros Hs. unfold b64decode.
  rewrite (ascii_encode_Ok s Hs).
  rewrite ascii_encode_Ok.
  2: { apply Forall_forall. intros c [Hc _]%list_elem_of_filter. now apply is_text_ascii. }
  cbn. unfold a2b_base64. rewrite filter_is_text by exact Hs. apply a2b_loop_filter.
Qed.

(** After the pad that completes the last quad nothing is looked at. *)
Lemma a2b_loop_tail1_junk x junk :
  a2b_loop (b2a (Byte.to_N x / 4) :: b2a (Byte.to_N x mod 4 * 16) :: PAD :: PAD :: junk)
    0 0 0 = Ok [x].
Proof.
  pose proof (to_N_lt x).
  rewrite !a2b_loop_char by dlia. cbn.
  replace (Byte.to_N x / 4 * 4 + Byte.to_N x mod 4 * 16 / 16) with (Byte.to_N x) by dlia.
  now rewrite byte_of_N_to_N.
Qed.

Lemma a2b_loop_tail2_junk x y junk :
  a2b_loop (b2a (Byte.to_N x / 4) :: b2a (Byte.to_N x mod 4 * 16 + Byte.to_N y / 16)
            :: b2a (Byte.to_N y mod 16 * 4) :: PAD :: junk) 0 0 0 = Ok [x; y].
Proof.
  pose proof (to_N_lt x). pose proof (to_N_lt y).
  rewrite !a2b_loop_char by dlia. cbn.
  replace (Byte.to_N x / 4 * 4 + (Byte.to_N x mod 4 * 16 + Byte.to_N y / 16) / 16)
    with (Byte.to_N x) by dlia.
  replace ((Byte.to_N x mod 4 * 16 + Byte.to_N y / 16) mod 16 * 16 + Byte.to_N y mod 16 * 4 / 4)
    with (Byte.to_N y) by dlia.
  now rewrite !byte_of_N_to_N.
Qed.

Lemma a2b_b64encode_junk (s junk : bytes) :
  (length s mod 3 ≠ 0)%nat → a2b_base64 (b64encode s ++ junk) = Ok s.
Proof.
  unfold a2b_base64. induction s as [|x|x y|x y z r IH] using list_ind3; intros Hlen.
  - cbn in Hlen. lia.
  - apply a2b_loop_tail1_junk.
  - apply a2b_loop_tail2_junk.
  - cbn [b64encode]. cbv zeta. rewrite <- !app_comm_cons. rewrite a2b_loop_quad, IH; [reflexivity |].
    cbn [length] in Hlen.
    replace (S (S (S (length r)))) with (length r + 1 * 3)%nat in Hlen by lia.
    now rewrite Nat.Div0.mod_add in Hlen.
Qed.

Lemma b64decode_junk (s : bytes) (junk : str) :
  (length s mod 3 ≠ 0)%nat → Forall (λ c, c < 128) junk →
  b64decode (map Byte.to_N (b64encode s) ++ junk) = Ok s.
Proof.
  intros Hlen Hjunk. unfold b64decode.
  rewrite ascii_encode_Ok.
  2: { apply Forall_app. split; [| exact Hjunk].
       apply Forall_forall. intros c (b & -> & Hb)%list_elem_of_fmap.
       pose proof (b64encode_ascii s) as Ha. rewrite Forall_forall in Ha.
       apply Ha in Hb. unfold is_ascii in Hb. lia. }
  cbn. rewrite map_app, map_map.
  rewrite (map_ext _ id), map_id by (intros; apply byte_of_N_to_N).
  now apply a2b_b64encode_junk.
Qed.

End Base64_more.

Section Utf8_more.
Import Utf8.
Local Open Scope N_scope.

Lemma encode_cp_cases (c : N) :
  (is_surrogate c = true ∧ encode_cp c = Raise UnicodeEncodeError)
  ∨ (is_surrogate c = false ∧ ∃ b, encode_cp c = Ok b ∧ (1 ≤ length b ≤ 4)%nat).
Proof.
  unfold encode_cp.
  destruct (N.ltb_spec c 0x80).
  { right. split; [| eexists; split; [reflexivity | cbn; lia]].
    unfold is_surrogate. destruct (N.leb_spec 0xD800 c); [lia | reflexivity]. }
  destruct (N.ltb_spec c 0x800).
  { right. split; [| eexists; split; [reflexivity | cbn; lia]].
    unfold is_surrogate. destruct (N.leb_spec 0xD800 c); [lia | reflexivity]. }
  destruct (is_surrogate c); [left; auto | right; split; [reflexivity |]].
  destruct (N.ltb_spec c 0x10000); eexists; (split; [reflexivity | cbn; lia]).
Qed.

(** [str.encode] fails exactly on the strings that hold a surrogate, and then
    with [UnicodeEncodeError]. *)
Lemma encode_surrogate (s : str) :
  Exists (λ c, is_surrogate c = true) s → encode s = Raise UnicodeEncodeError.
Proof.
  induction s as [|c s IH]; intros H; [by apply Exists_nil in H |].
  cbn [encode].
  destruct (encode_cp_cases c) as [[Hs ->] | [Hs (b & -> & _)]]; [reflexivity |].
  apply Exists_cons in H as [H | H]; [congruence |].
  cbn. now rewrite IH.
Qed.

Lemma encode_no_surrogate (s : str) :
  Forall (λ c, is_surrogate c = false) s →
  ∃ bs, encode s = Ok bs ∧ (length s ≤ length bs ≤ 4 * length s)%nat.
Proof.
  induction 1 as [|c s Hc _ (bs & IH & Hlen)].
  - exists []. split; [reflexivity | cbn; lia].
  - destruct (encode_cp_cases c) as [[Hs _] | [_ (b & Hb & Hlb)]]; [congruence |].
    exists (b ++ bs). cbn [encode]. rewrite Hb. cbn. rewrite IH. cbn.
    split; [reflexivity |]. rewrite length_app. cbn [length]. lia.
Qed.

Lemma encode_Ok_inv (s : str) (bs : bytes) :
  encode s = Ok bs →
  Forall (λ c, is_surrogate c = false) s ∧ (length s ≤ length bs ≤ 4 * length s)%nat.
Proof.
  intros H.
  assert (Hs : Forall (λ c, is_surrogate c = false) s).
  { apply Forall_forall. intros c Hc.
    destruct (is_surrogate c) eqn:E; [| reflexivity].
    rewrite encode_surrogate in H; [discriminate |].
    apply Exists_exists. eauto. }
  split; [exact Hs |].
  destruct (encode_no_surrogate s Hs) as (bs' & H' & Hlen). congruence.
Qed.

Lemma cont_inv (b : byte) (x : N) :
  cont b = Some x → x < 64 ∧ Byte.to_N b = 0x80 + x.
Proof.
  unfold cont.
  destruct (N.leb_spec 0x80 (Byte.to_N b)); cbn [andb]; [| discriminate].
  destruct (N.leb_spec (Byte.to_N b) 0xBF); [| discriminate].
  intros [= <-]. lia.
Qed.

Lemma byte_eq_of_N (b : byte) (n : N) : Byte.to_N b = n → byte_of_N n = b.
Proof. intros <-. apply byte_of_N_to_N. Qed.

(** What [bytes.decode] accepts is the encoding of what it returns: the
    decoder takes no overlong form, no surrogate and nothing beyond U+10FFFF. *)
Lemma encode_decode (bs : bytes) (s : str) :
  decode bs = Ok s → wf_str s ∧ encode s = Ok bs.
Proof.
  remember (length bs) as n eqn:Hn.
  revert bs s Hn. induction n as [n IH] using lt_wf_ind. intros bs s ->.
  destruct bs as [|b0 r0]; [intros [= <-]; split; [constructor | reflexivity] |].
  cbn [decode]. cbv zeta.
  assert (Hrec : ∀ r (c : N) bc,
            (length r < length (b0 :: r0))%nat → c ≤ 0x10FFFF → encode_cp c = Ok bc →
            b0 :: r0 = bc ++ r →
            (decode r ≫= λ s', Ok (c :: s')) = Ok s → wf_str s ∧ encode s = Ok (b0 :: r0)).
  { intros r c bc Hr Hc Hbc Heq H.
    apply bind_Ok in H as (s' & Hs' & [= <-]).
    destruct (IH _ Hr r s' eq_refl Hs') as [Hwf Henc].
    split; [now constructor |]. cbn [encode]. rewrite Hbc. cbn. rewrite Henc. cbn.
    now rewrite Heq. }
  pose proof (to_N_lt b0) as Hb0.
  destruct (N.ltb_spec (Byte.to_N b0) 0x80) as [H1|H1].
  { apply Hrec with (bc := [b0]); [cbn; lia | lia | | reflexivity].
    unfold encode_cp. destruct (N.ltb_spec (Byte.to_N b0) 0x80); [| lia].
    now rewrite byte_of_N_to_N. }
  destruct (N.ltb_spec (Byte.to_N b0) 0xC0) as [H2|H2]; [discriminate |].
  destruct (N.ltb_spec (Byte.to_N b0) 0xE0) as [H3|H3].
  { destruct r0 as [|b1 r1]; [discriminate |].
    destruct (cont b1) as [x1|] eqn:E1; [| discriminate].
    apply cont_inv in E1 as [Hx1 Hb1].
    set (c := (Byte.to_N b0 - 0xC0) * 64 + x1).
    destruct (N.ltb_spec c 0x80) as [|Hc]; [discriminate |].
    apply Hrec with (bc := [b0; b1]); [cbn; lia | unfold c; lia | | reflexivity].
    unfold encode_cp.
    destruct (N.ltb_spec c 0x80); [lia |].
    destruct (N.ltb_spec c 0x800); [| unfold c in *; lia].
    do 2 f_equal; [| f_equal]; apply byte_eq_of_N; unfold c; dlia. }
  destruct (N.ltb_spec (Byte.to_N b0) 0xF0) as [H4|H4].
  { destruct r0 as [|b1 [|b2 r2]]; [discriminate | discriminate |].
    destruct (cont b1) as [x1|] eqn:E1; [| discriminate].
    destruct (cont b2) as [x2|] eqn:E2; [| discriminate].
    apply cont_inv in E1 as [Hx1 Hb1]. apply cont_inv in E2 as [Hx2 Hb2].
    set (c := (Byte.to_N b0 - 0xE0) * 4096 + x1 * 64 + x2).
    destruct (N.ltb_spec c 0x800) as [|Hc]; [discriminate |].
    destruct (is_surrogate c) eqn:Hs; [discriminate |]. cbn [orb].
    apply Hrec with (bc := [b0; b1; b2]); [cbn; lia | unfold c; lia | | reflexivity].
    unfold encode_cp. rewrite Hs.
    destruct (N.ltb_spec c 0x80); [lia |].
    destruct (N.ltb_spec c 0x800); [lia |].
    destruct (N.ltb_spec c 0x10000); [| unfold c in *; lia].
    do 2 f_equal; [| f_equal; [| f_equal]]; apply byte_eq_of_N; unfold c; dlia. }
  destruct (N.ltb_spec (Byte.to_N b0) 0xF8) as [H5|H5]; [| discriminate].
  destruct r0 as [|b1 [|b2 [|b3 r3]]]; [discriminate | discriminate | discriminate |].
  destruct (cont b1) as [x1|] eqn:E1; [| discriminate].
  destruct (cont b2) as [x2|] eqn:E2; [| discriminate].
  destruct (cont b3) as [x3|] eqn:E3; [| discriminate].
  apply cont_inv in E1 as [Hx1 Hb1]. apply cont_inv in E2 as [Hx2 Hb2].
  apply cont_inv in E3 as [Hx3 Hb3].
  set (c := (Byte.to_N b0 - 0xF0) * 262144 + x1 * 4096 + x2 * 64 + x3).
  destruct (N.ltb_spec c 0x10000) as [|Hc]; [discriminate |].
  destruct (N.ltb_spec 0x10FFFF c) as [|Hc']; [discriminate |]. cbn [orb].
  apply Hrec with (bc := [b0; b1; b2; b3]); [cbn; lia | lia | | reflexivity].
  unfold encode_cp.
  assert (Hs : is_surrogate c = false).
  { unfold is_surrogate. destruct (N.leb_spec c 0xDFFF); [lia |]. apply andb_false_r. }
  rewrite Hs.
  destruct (N.ltb_spec c 0x80); [lia |].
  destruct (N.ltb_spec c 0x800); [lia |].
  destruct (N.ltb_spec c 0x10000); [lia |].
  do 2 f_equal; [| f_equal; [| f_equal; [| f_equal]]]; apply byte_eq_of_N; unfold c; dlia.
Qed.

End Utf8_more.

(** * More on the module *)

Lemma b64encode_significant (s : bytes) :
  Forall (λ ch, significant ch = true) (Base64.b64encode s).
Proof.
  assert (Hpad : significant Base64.PAD = true) by reflexivity.
  assert (Hb2a : ∀ i, (i < 64)%N → significant (Base64.b2a i) = true).
  { intros i Hi. destruct (b2a_spec i Hi) as (_ & _ & Ha).
    unfold significant. rewrite Ha. rewrite bool_decide_eq_true_2 by eauto.
    apply orb_true_r. }
  induction s as [|x|x y|x y z r IH] using list_ind3; cbn [Base64.b64encode]; cbv zeta.
  1: constructor.
  all: pose proof (to_N_lt x).
  2,3: pose proof (to_N_lt y).
  3: pose proof (to_N_lt z).
  all: repeat first [ apply Forall_cons; split | apply Forall_nil_2 | exact IH
                    | exact Hpad | apply Hb2a; dlia ].
Qed.

Lemma b64_text_is_text (s : bytes) :
  Forall (λ c, is_text c = true) (map Byte.to_N (Base64.b64encode s)).
Proof.
  apply Forall_forall. intros c (b & -> & Hb)%list_elem_of_fmap.
  pose proof (b64encode_ascii s) as Ha. rewrite Forall_forall in Ha.
  pose proof (b64encode_significant s) as Hs. rewrite Forall_forall in Hs.
  rewrite <- significant_is_text by (apply Ha, Hb).
  rewrite byte_of_N_to_N. apply Hs, Hb.
Qed.

Section Module_more.

Context {L : CryptoLib} {LL : CryptoLibLaws L} {LS : CryptoLibSpec L}.

(** How [encrypt_message] comes to return. *)
Lemma encrypt_message_inv message public_key rnd c :
  encrypt_message message public_key rnd = Ok c →
  ∃ k data ct, import_key public_key = Ok k ∧ Utf8.encode message = Ok data
               ∧ OAEP_encrypt k data rnd = Ok ct
               ∧ c = map Byte.to_N (Base64.b64encode ct).
Proof.
  unfold encrypt_message. intros H.
  apply bind_Ok in H as (k & Hk & H). apply bind_Ok in H as (data & Hd & H).
  apply bind_Ok in H as (ct & Hct & H).
  rewrite decode_ascii in H by apply b64encode_ascii. apply Ok_inj in H.
  eauto 8.
Qed.

(** How [decrypt_message] comes to return. *)
Lemma decrypt_message_inv encrypted_message private_key m :
  decrypt_message encrypted_message private_key = Ok m →
  ∃ k eb data, import_key private_key = Ok k
               ∧ Base64.b64decode encrypted_message = Ok eb
               ∧ OAEP_decrypt k eb = Ok data ∧ Utf8.decode data = Ok m.
Proof.
  unfold decrypt_message. intros H.
  apply bind_Ok in H as (k & Hk & H). apply bind_Ok in H as (eb & Heb & H).
  apply bind_Ok in H as (data & Hd & H). eauto 8.
Qed.

Lemma OAEP_encrypt_length k data rnd ct :
  OAEP_encrypt k data rnd = Ok ct → Z.of_nat (length ct) = size_in_bytes k.
Proof.
  intros H. destruct (Z_le_gt_dec (Z.of_nat (length data)) (oaep_capacity k)) as [Hfit|Hlong].
  - destruct (encrypt_returns k data rnd Hfit) as (c & Hc & Hlen). congruence.
  - destruct (encrypt_too_long k data rnd) as (msg & Hc); [lia | congruence].
Qed.

(** X1: the text that [encrypt_message] returns is made of the 64 characters of
    the alphabet and the pad, and has four characters for every three bytes of
    the modulus, rounded up: 344, 512 and 684 for the three sizes. *)
Theorem ciphertext_text message public_key rnd k c :
  import_key public_key = Ok k →
  encrypt_message message public_key rnd = Ok c →
  Forall (λ ch, is_text ch = true) c
  ∧ len c = 4 * ((size_in_bytes k + 2) / 3).
Proof.
  intros Hk (k' & data & ct & Hk' & _ & Hct & ->)%encrypt_message_inv.
  assert (k' = k) as -> by congruence.
  split; [apply b64_text_is_text |].
  unfold len. rewrite length_map, length_b64encode.
  rewrite <- (OAEP_encrypt_length _ _ _ _ Hct).
  rewrite Nat2Z.inj_mul, Nat2Z.inj_div, Nat2Z.inj_add. reflexivity.
Qed.


(** X3: a message without surrogates is encrypted as soon as four times its
    number of characters is within the capacity: no character takes more than
    four bytes. *)
Theorem encrypt_message_short message public_key rnd k :
  import_key public_key = Ok k →
  Forall (λ c, Utf8.is_surrogate c = false) message →
  4 * len message ≤ oaep_capacity k →
  returns (encrypt_message message public_key rnd).
Proof.
  intros Hk Hs Hfit.
  destruct (encode_no_surrogate message Hs) as (data & Hd & Hlen).
  destruct (encrypt_returns k data rnd) as (ct & Hct & _); [unfold len in Hfit; lia |].
  eexists. eapply encrypt_message_Ok; eauto.
Qed.

(** X4: characters that are neither of the alphabet nor the pad, line breaks and
    spaces among them, make no difference to [decrypt_message]. *)
Theorem decrypt_message_skips encrypted_message private_key :
  Forall (λ c, (c < 128)%N) encrypted_message →
  decrypt_message (filter (λ c, is_text c = true) encrypted_message) private_key
  = decrypt_message encrypted_message private_key.
Proof.
  intros Hascii. unfold decrypt_message. now rewrite b64decode_filter.
Qed.

(** X5: a text with a character beyond ASCII is refused before any decryption. *)
Theorem decrypt_message_non_ascii encrypted_message private_key k :
  import_key private_key = Ok k →
  Exists (λ c, (128 ≤ c)%N) encrypted_message →
  decrypt_message encrypted_message private_key
  = Raise (ValueError "string argument should contain only ASCII characters").
Proof.
  intros Hk Hc. unfold decrypt_message, Base64.b64decode. rewrite Hk. cbn.
  now rewrite ascii_encode_non_ascii.
Qed.

(** [RSA.generate] returns for no size below 1024. *)
Lemma RSA_generate_size bits e rnd key :
  RSA_generate bits e rnd = Ok key → 1024 ≤ bits.
Proof.
  intros H. destruct (Z_lt_ge_dec bits 1024) as [Hb|Hb]; [| lia].
  destruct (generate_too_small bits e rnd Hb) as (msg & H'). congruence.
Qed.

(** X6: the empty text is refused by the private key of every generated pair: it
    decodes to no bytes, and the modulus has at least 128. *)
Theorem decrypt_message_empty key_size rnd private_key public_key key :
  generate_rsa_keys key_size rnd = Ok (private_key, public_key, key) →
  ∃ msg, decrypt_message [] private_key = Raise (ValueError msg).
Proof.
  intros (Hk & -> & ->)%generate_rsa_keys_inv.
  pose proof (RSA_generate_size _ _ _ _ Hk) as Hb.
  pose proof (generate_modulus _ _ _ _ Hk) as Hn.
  eapply decrypt_message_wrong_length; [apply import_export | reflexivity |].
  unfold size_in_bytes. rewrite Hn. cbn [length]. dlia.
Qed.

(** X7: what [decrypt_message] returns is a well-formed string whose UTF-8
    encoding is, byte for byte, what the cipher gave back. *)
Theorem decrypt_message_canonical encrypted_message private_key m :
  decrypt_message encrypted_message private_key = Ok m →
  wf_str m
  ∧ ∃ k eb data, import_key private_key = Ok k
                 ∧ Base64.b64decode encrypted_message = Ok eb
                 ∧ OAEP_decrypt k eb = Ok data ∧ Utf8.encode m = Ok data.
Proof.
  intros (k & eb & data & Hk & Heb & Hd & Hm)%decrypt_message_inv.
  apply encode_decode in Hm as [Hwf Henc]. eauto 8.
Qed.

(** The round trip under the pair that [RSA.generate] returns for any size it
    accepts, with text appended to the ciphertext when the modulus length is
    not a multiple of three. *)
Lemma roundtrip_generated bits e rnd key m rnd' c :
  RSA_generate bits e rnd = Ok key → wf_str m →
  encrypt_message m (export_key (publickey key)) rnd' = Ok c →
  decrypt_message c (export_key key) = Ok m
  ∧ ∀ junk, size_in_bytes key mod 3 ≠ 0 → Forall (λ ch, (ch < 128)%N) junk →
            decrypt_message (c ++ junk) (export_key key) = Ok m.
Proof.
  intros Hk Hwf (k' & data & ct & Hk' & Hd & Hct & ->)%encrypt_message_inv.
  rewrite import_export in Hk'. apply Ok_inj in Hk'. subst k'.
  pose proof (decrypt_encrypt _ _ _ _ _ _ _ Hk Hct) as Hdec.
  pose proof (decode_encode m data Hwf Hd) as Hm.
  split.
  - rewrite (decrypt_message_b64 ct _ key) by apply import_export.
    rewrite Hdec. exact Hm.
  - intros junk H3 Hjunk. unfold decrypt_message. rewrite import_export. cbn.
    rewrite b64decode_junk; [cbn; rewrite Hdec; exact Hm | | exact Hjunk].
    pose proof (OAEP_encrypt_length _ _ _ _ Hct) as Hlen.
    rewrite size_in_bytes_publickey in Hlen.
    intros H0. apply H3. rewrite <- Hlen.
    change 3 with (Z.of_nat 3). rewrite <- Nat2Z.inj_mod, H0. reflexivity.
Qed.

(** X8: under a pair whose modulus length in bytes is not a multiple of three,
    2048 and 4096 bits among them, [decrypt_message] gives the plaintext back
    whatever ASCII text follows the ciphertext: the Base64 text then ends in
    a pad, and nothing after it is read. *)
Theorem decrypt_message_trailing key_size rnd private_key public_key key m rnd' c junk :
  generate_rsa_keys key_size rnd = Ok (private_key, public_key, key) →
  wf_str m → encrypt_message m public_key rnd' = Ok c →
  size_in_bytes key mod 3 ≠ 0 → Forall (λ ch, (ch < 128)%N) junk →
  decrypt_message (c ++ junk) private_key = Ok m.
Proof.
  intros (Hk & -> & ->)%generate_rsa_keys_inv Hwf Hc H3 Hjunk.
  now apply (roundtrip_generated _ _ _ _ _ _ _ Hk Hwf Hc).
Qed.

(** X9: no two plaintexts share a ciphertext: if two messages, whatever was
    drawn for each, are encrypted to the same text under the public key of a
    generated pair, they are the same message. *)
Theorem ciphertext_determines_plaintext key_size rnd private_key public_key key
    m1 m2 r1 r2 c :
  generate_rsa_keys key_size rnd = Ok (private_key, public_key, key) →
  wf_str m1 → wf_str m2 →
  encrypt_message m1 public_key r1 = Ok c → encrypt_message m2 public_key r2 = Ok c →
  m1 = m2.
Proof.
  intros (Hk & -> & ->)%generate_rsa_keys_inv Hwf1 Hwf2 H1 H2.
  destruct (roundtrip_generated _ _ _ _ _ _ _ Hk Hwf1 H1) as [D1 _].
  destruct (roundtrip_generated _ _ _ _ _ _ _ Hk Hwf2 H2) as [D2 _].
  congruence.
Qed.

(** X10: the two halves that [generate_rsa_keys] exports: the private one reads
    back as the key object, the public one as a key with the same modulus and
    exponent and no private part. *)
Theorem exported_halves key_size rnd private_key public_key key :
  generate_rsa_keys key_size rnd = Ok (private_key, public_key, key) →
  import_key private_key = Ok key ∧ has_private key = true
  ∧ ∃ k, import_key public_key = Ok k ∧ has_private k = false
         ∧ key_n k = key_n key ∧ key_e k = key_e key.
Proof.
  intros (Hk & -> & ->)%generate_rsa_keys_inv.
  destruct (generate_key _ _ _ _ Hk) as (Hp & _).
  destruct (publickey_key key) as (Hn & He & Hpub).
  split; [apply import_export |]. split; [exact Hp |].
  exists (publickey key). split; [apply import_export |]. auto.
Qed.

End Module_more.

(** ** The script on the console *)

(** One step of a computation of the script. *)
Ltac io_run :=
  cbv beta iota zeta delta
    [mbind io_mbind mret io_mret io_bind io_ret print raise
     stdout clock_reads random_draws default from_option id].

Lemma get_security_level_unlisted (key_size : Z) :
  key_size ∉ key_sizes → get_security_level key_size = ∅.
Proof.
  rewrite key_sizes_spec. intros H. unfold get_security_level.
  rewrite security_info_lookup. repeat case_decide; tauto || reflexivity.
Qed.

(** The three lines that [display_security_info] prints before it looks
    anything up. *)
Lemma display_security_info_unlisted (key_size : Z) (w : world) :
  key_size ∉ key_sizes →
  Console.display_security_info key_size w
  = (inr (KeyError "security_bits"),
     World (stdout w ++
              [ nl ++ lit "┌" ++ times 0x2500 68 ++ lit "┐";
                lit "│ SECURITY INFORMATION - " ++ str_of_int key_size
                  ++ lit "-bit RSA Key"
                  ++ times 32 (32 - len (str_of_int key_size)) ++ lit "│";
                lit "├" ++ times 0x2500 68 ++ lit "┤" ])
           (clock_reads w) (random_draws w)).
Proof.
  intros Hk. destruct w as [out cr rd]. unfold Console.display_security_info.
  rewrite (get_security_level_unlisted key_size Hk). io_run.
  unfold subscript. rewrite lookup_empty. io_run.
  now rewrite <- !app_assoc.
Qed.

Lemma display_security_info_tier (key_size : Z) (w : world)
    (bits : Z) (level approval use : string) :
  get_security_level key_size !! "security_bits" = Some (VInt bits) →
  get_security_level key_size !! "level" = Some (VStr level) →
  get_security_level key_size !! "nist_approval" = Some (VStr approval) →
  get_security_level key_size !! "use_case" = Some (VStr use) →
  ∃ lines, length lines = 8%nat
    ∧ Console.display_security_info key_size w
      = (inl tt, World (stdout w ++ lines) (clock_reads w) (random_draws w)).
Proof.
  intros H1 H2 H3 H4. destruct w as [out cr rd].
  unfold Console.display_security_info. io_run. unfold subscript. rewrite H1, H2, H3, H4. io_run.
  unfold len_of_val. io_run.
  rewrite <- !app_assoc. cbn [app]. eexists. split; [| reflexivity]. reflexivity.
Qed.

Lemma display_security_info_listed (key_size : Z) (w : world) :
  key_size ∈ key_sizes →
  ∃ lines, length lines = 8%nat
    ∧ Console.display_security_info key_size w
      = (inl tt, World (stdout w ++ lines) (clock_reads w) (random_draws w)).
Proof.
  intros [-> | [-> | ->]]%key_sizes_spec;
    eapply display_security_info_tier; reflexivity.
Qed.


(** X11: [display_security_info] returns for the sizes of the table, after the
    eight lines of the box, and for no other size: any other stops it after
    three lines with the [KeyError] of the first subscript.  It neither reads
    the clock nor draws. *)
Theorem display_security_info_outcome (key_size : Z) (w : world) :
  ∃ lines,
    Console.display_security_info key_size w
    = (if bool_decide (key_size ∈ key_sizes) then inl tt
       else inr (KeyError "security_bits"),
       World (stdout w ++ lines) (clock_reads w) (random_draws w))
    ∧ length lines = if bool_decide (key_size ∈ key_sizes) then 8%nat else 3%nat.
Proof.
  case_bool_decide as Hk.
  - destruct (display_security_info_listed key_size w Hk) as (lines & Hn & E).
    now exists lines.
  - rewrite (display_security_info_unlisted key_size w Hk).
    eexists. split; reflexivity.
Qed.

(** X12: two calls of [get_security_level] share nothing: whatever the caller
    writes into the dictionary of the first call, the second call hands out
    another dictionary, with the contents of the table, and leaves the first
    as the caller made it. *)
Theorem get_security_level_ref_unshared (a b : Z) (d : gmap string pyval) (h : store) :
  let r1 := get_security_level_ref a h in
  let r2 := get_security_level_ref b (<[r1.1 := d]> r1.2) in
  r2.1 ≠ r1.1
  ∧ r2.2 !! r2.1 = Some (get_security_level b)
  ∧ r2.2 !! r1.1 = Some d.
Proof.
  intros r1 r2.
  pose proof (get_security_level_ref_spec b (<[r1.1 := d]> r1.2)) as H2.
  fold r2 in H2. destruct r2 as [l2 h2]. destruct H2 as (Hnew & Hsub & Hl2).
  cbn [fst snd].
  assert (Hd : h2 !! r1.1 = Some d).
  { eapply lookup_weaken; [apply lookup_insert_eq | exact Hsub]. }
  split; [| split; [exact Hl2 | exact Hd]].
  intros ->. rewrite lookup_insert_eq in Hnew. discriminate.
Qed.

Section Console_facts.

Context {L : CryptoLib} {H : Host L}.

(** With or without its output, [generate_rsa_keys] returns the same: the
    function of the first part is the value of this one, on the draw that is
    next. *)
Lemma console_generate_value (key_size : option Z) (w : world) :
  (Console.generate_rsa_keys key_size w).1
  = match generate_rsa_keys key_size (random (random_draws w)) with
    | Ok v => inl v
    | Raise e => inr (Escaped e)
    end.
Proof.
  destruct w as [out cr rd].
  unfold Console.generate_rsa_keys, generate_rsa_keys, Console.time_time,
    Console.call_random.
  io_run. unfold result_bind.
  now destruct (RSA_generate _ _ _).
Qed.

(** The six lines of [generate_rsa_keys] when [RSA.generate] returns. *)
Lemma console_generate_Ok (bits : Z) (w : world) (key : RsaKey) :
  RSA_generate bits RSA_generate_default_e (random (random_draws w)) = Ok key →
  Console.generate_rsa_keys (Some bits) w
  = (inl (export_key key, export_key (publickey key), key),
     World (stdout w ++
              [ nl ++ times 61 70;
                lit "Generating " ++ str_of_int bits ++ lit "-bit RSA key pair...";
                times 61 70;
                lit "✓ Key generation completed in "
                  ++ seconds_4f (clock (clock_reads w)) (clock (S (clock_reads w)))
                  ++ lit " seconds";
                lit "  Public Exponent (e): " ++ str_of_int (key_e key);
                lit "  Modulus Size: " ++ str_of_int (bit_length (key_n key))
                  ++ lit " bits" ])
           (S (S (clock_reads w))) (S (random_draws w))).
Proof.
  destruct w as [out cr rd]. cbn [stdout clock_reads random_draws]. intros Hk.
  unfold Console.generate_rsa_keys, Console.time_time, Console.call_random.
  io_run. rewrite Hk. io_run.
  now rewrite <- !app_assoc.
Qed.

(** A run of [test_rsa_implementation] in which the three calls of the module
    return: 32 lines, then the verdict on what decryption gave. *)
Lemma test_rsa_implementation_run (key_size : Z) (w : world)
    (key : RsaKey) (c d : str) :
  key_size ∈ key_sizes →
  RSA_generate key_size RSA_generate_default_e (random (random_draws w)) = Ok key →
  encrypt_message plaintext (export_key (publickey key))
    (random (S (random_draws w))) = Ok c →
  decrypt_message c (export_key key) = Ok d →
  ∃ earlier, length earlier = 32%nat
    ∧ Console.test_rsa_implementation (Some key_size) w
      = (inl tt, World (stdout w ++ earlier ++ verdict d)
                   (6 + clock_reads w) (2 + random_draws w)).
Proof.
  intros Hsize Hk Hc Hd.
  destruct (display_security_info_listed key_size w Hsize) as (box & Hbox & Hdisplay).
  pose proof (console_generate_Ok key_size
                (World (stdout w ++ box) (clock_reads w) (random_draws w)) key Hk) as Hgen.
  destruct w as [out cr rd]. cbn [stdout clock_reads random_draws] in *.
  unfold Console.test_rsa_implementation.
  unfold mbind at 1. unfold io_mbind, io_bind.
  cbv beta iota zeta delta [default from_option id]. rewrite Hdisplay.
  unfold mbind at 1. unfold io_mbind, io_bind. rewrite Hgen.
  unfold Console.encrypt_message, Console.decrypt_message, Console.call_random,
    Console.time_time, call.
  io_run. rewrite Hc. io_run. rewrite Hd. io_run.
  unfold verdict. destruct (bool_decide (plaintext = d)); io_run.
  all: rewrite <- !app_assoc; cbn [app].
  all: match goal with
       | |- ∃ earlier, _ ∧ (_, World (_ ++ _ ++ ?rest) _ _) = _ =>
         exists (box ++ take 24 rest)
       end.
  all: split; [rewrite length_app, Hbox; reflexivity |].
  all: rewrite <- app_assoc; reflexivity.
Qed.

(** X13: a verdict of failure is printed and nothing else: the function returns
    as after a success, and its caller is told nothing. *)
Theorem test_rsa_implementation_mismatch (key_size : Z) (w : world)
    (key : RsaKey) (c d : str) :
  key_size ∈ key_sizes →
  RSA_generate key_size RSA_generate_default_e (random (random_draws w)) = Ok key →
  encrypt_message plaintext (export_key (publickey key))
    (random (S (random_draws w))) = Ok c →
  decrypt_message c (export_key key) = Ok d →
  d ≠ plaintext →
  ∃ earlier, length earlier = 32%nat
    ∧ Console.test_rsa_implementation (Some key_size) w
      = (inl tt,
         World (stdout w ++ earlier ++ [Console.FAILURE; Console.closing_rule])
           (6 + clock_reads w) (2 + random_draws w)).
Proof.
  intros Hsize Hk Hc Hd Hne.
  destruct (test_rsa_implementation_run key_size w key c d Hsize Hk Hc Hd)
    as (earlier & Hn & E).
  exists earlier. split; [exact Hn |]. rewrite E. unfold verdict.
  rewrite bool_decide_eq_false_2 by congruence. reflexivity.
Qed.

(** X14: [main] announces success whatever the tests found: when it returns, the
    line [ALL_COMPLETED] is the thirteenth from the end of the output, for
    every library and every outcome of the verdicts. *)
Theorem main_banner_unconditional (w w' : world) :
  Console.main w = (inl tt, w') →
  ∃ before after, length after = 12%nat
    ∧ stdout w' = before ++ Console.ALL_COMPLETED :: after.
Proof.
  destruct w as [out cr rd]. unfold Console.main. io_run.
  destruct (Console.for_each key_sizes _) as [[[] | e] [out1 cr1 rd1]]; [| discriminate].
  intros [= <-]. cbn [stdout]. rewrite <- !app_assoc. cbn [app].
  eexists (out1 ++ [_]), _. split; [| rewrite <- app_assoc; reflexivity]. reflexivity.
Qed.

Context {LL : CryptoLibLaws L} {LS : CryptoLibSpec L}.

(** X15: what [generate_rsa_keys] prints.  From 1024 bits on: the banner, the
    duration between two readings of the clock, the exponent 65537 and, as
    modulus size, the size asked for; one draw is consumed.  Below 1024 bits:
    the banner, and then the [ValueError] of the library. *)
Theorem console_generate_rsa_keys (bits : Z) (w : world) :
  (1024 ≤ bits →
   ∃ key,
     RSA_generate bits RSA_generate_default_e (random (random_draws w)) = Ok key
     ∧ Console.generate_rsa_keys (Some bits) w
       = (inl (export_key key, export_key (publickey key), key),
          World (stdout w ++
                   [ nl ++ times 61 70;
                     lit "Generating " ++ str_of_int bits ++ lit "-bit RSA key pair...";
                     times 61 70;
                     lit "✓ Key generation completed in "
                       ++ seconds_4f (clock (clock_reads w)) (clock (S (clock_reads w)))
                       ++ lit " seconds";
                     lit "  Public Exponent (e): " ++ str_of_int 65537;
                     lit "  Modulus Size: " ++ str_of_int bits ++ lit " bits" ])
                (S (S (clock_reads w))) (S (random_draws w))))
  ∧ (bits < 1024 →
     ∃ msg,
       Console.generate_rsa_keys (Some bits) w
       = (inr (Escaped (ValueError msg)),
          World (stdout w ++
                   [ nl ++ times 61 70;
                     lit "Generating " ++ str_of_int bits ++ lit "-bit RSA key pair...";
                     times 61 70 ])
                (S (clock_reads w)) (random_draws w))).
Proof.
  destruct w as [out cr rd]. cbn [stdout clock_reads random_draws].
  split; intros Hb.
  - destruct (generate_returns bits RSA_generate_default_e (random rd) Hb)
      as [key Hk]; [reflexivity | unfold RSA_generate_default_e; lia |].
    destruct (generate_key _ _ _ _ Hk) as (_ & He).
    pose proof (generate_modulus _ _ _ _ Hk) as Hn.
    exists key. split; [exact Hk |].
    rewrite (console_generate_Ok bits (World out cr rd) key Hk), He, Hn. reflexivity.
  - destruct (generate_too_small bits RSA_generate_default_e (random rd) Hb)
      as (msg & Hk).
    exists msg.
    unfold Console.generate_rsa_keys, Console.time_time, Console.call_random.
    io_run. rewrite Hk.
    now rewrite <- !app_assoc.
Qed.

(** X16: a size that the table does not list stops [test_rsa_implementation] at
    the third line of the information box, with the [KeyError] of the first
    subscript: no key is generated, the clock is not read and nothing is
    drawn, also for a size such as 1024 that [generate_rsa_keys] takes. *)
Theorem test_rsa_implementation_unlisted (key_size : Z) (w : world) :
  key_size ∉ key_sizes →
  ∃ lines, length lines = 3%nat
    ∧ Console.test_rsa_implementation (Some key_size) w
      = (inr (KeyError "security_bits"),
         World (stdout w ++ lines) (clock_reads w) (random_draws w)).
Proof.
  intros Hk. unfold Console.test_rsa_implementation. cbn [default from_option id].
  unfold mbind at 1. unfold io_mbind, io_bind.
  rewrite (display_security_info_unlisted key_size w Hk).
  eexists. split; [| reflexivity]. reflexivity.
Qed.








End Console_facts.

(** ** Closed instances of the further properties

    Each is the property above at the reference library, or at the broken
    one where the property is about a failure of the library. *)

(** The ciphertext of the test message under a 2048-bit key: 344 characters
    of the alphabet. *)
Lemma ciphertext_text_sample :
  Forall (λ ch, is_text ch = true) sample_ciphertext
  ∧ len sample_ciphertext = 4 * ((size_in_bytes (Ref.public sample_key) + 2) / 3).
Proof.
  apply (ciphertext_text (LS := RefFacts.spec_laws) plaintext
           (Ref.export (Ref.public sample_key)) (key_draw + 1)).
  - apply RefFacts.ref_import_export.
  - vm_compute. reflexivity.
Defined.


(** Eleven characters are within the capacity of a 2048-bit key. *)
Lemma encrypt_message_short_sample :
  returns (encrypt_message (L := Ref.lib) (str_of_string "Ceylon Bank")
             (Ref.export (Ref.public sample_key)) seed_draw).
Proof.
  apply (encrypt_message_short (LS := RefFacts.spec_laws) _ _ seed_draw
           (Ref.public sample_key)).
  - apply RefFacts.ref_import_export.
  - repeat constructor.
  - vm_compute. discriminate.
Defined.

(** The ciphertext broken into two lines decrypts as the ciphertext. *)
Lemma decrypt_message_skips_sample :
  decrypt_message (L := Ref.lib)
    (filter (λ c, is_text c = true)
       (take 64 sample_ciphertext ++ [10%N] ++ drop 64 sample_ciphertext))
    (Ref.export sample_key)
  = decrypt_message (L := Ref.lib)
      (take 64 sample_ciphertext ++ [10%N] ++ drop 64 sample_ciphertext)
      (Ref.export sample_key).
Proof.
  apply (decrypt_message_skips (L := Ref.lib)).
  apply (bool_decide_unpack (Forall _ _)). vm_compute. exact I.
Defined.

(** A check mark is no Base64 text. *)
Lemma decrypt_message_non_ascii_sample :
  decrypt_message (L := Ref.lib) [0x2713%N] (Ref.export sample_key)
  = Raise (ValueError "string argument should contain only ASCII characters").
Proof.
  apply (decrypt_message_non_ascii (L := Ref.lib) _ _ sample_key).
  - apply RefFacts.ref_import_export.
  - constructor. vm_compute. discriminate.
Defined.

Lemma decrypt_message_empty_sample :
  ∃ msg, decrypt_message (L := Ref.lib) [] (Ref.export sample_key)
         = Raise (ValueError msg).
Proof.
  apply (decrypt_message_empty (LL := RefFacts.laws) (LS := RefFacts.spec_laws)
           (Some 2048) key_draw _ (Ref.export (Ref.public sample_key)) sample_key).
  vm_compute. reflexivity.
Defined.

Lemma decrypt_message_canonical_sample :
  wf_str plaintext
  ∧ ∃ k eb data, import_key (CryptoLib := Ref.lib) (Ref.export sample_key) = Ok k
                 ∧ Base64.b64decode sample_ciphertext = Ok eb
                 ∧ OAEP_decrypt k eb = Ok data ∧ Utf8.encode plaintext = Ok data.
Proof.
  apply (decrypt_message_canonical (L := Ref.lib)).
  vm_compute. reflexivity.
Defined.

(** 256 is no multiple of three: a signature line after the ciphertext does
    no harm. *)
Lemma decrypt_message_trailing_sample :
  decrypt_message (L := Ref.lib)
    (sample_ciphertext ++ 10%N :: str_of_string "-- Ceylon Bank")
    (Ref.export sample_key)
  = Ok plaintext.
Proof.
  apply (decrypt_message_trailing (LL := RefFacts.laws) (LS := RefFacts.spec_laws)
           (Some 2048) key_draw _ (Ref.export (Ref.public sample_key)) sample_key
           plaintext (key_draw + 1)).
  - vm_compute. reflexivity.
  - apply wf_str_check. vm_compute. reflexivity.
  - vm_compute. reflexivity.
  - vm_compute. discriminate.
  - apply (bool_decide_unpack (Forall _ _)). vm_compute. exact I.
Defined.

(** What decryption returns is the one message with this ciphertext. *)
Lemma ciphertext_determines_plaintext_sample :
  match decrypt_message (L := Ref.lib) sample_ciphertext (Ref.export sample_key) with
  | Ok m => m
  | Raise _ => []
  end = plaintext.
Proof.
  apply (ciphertext_determines_plaintext (LL := RefFacts.laws) (LS := RefFacts.spec_laws)
           (Some 2048) key_draw (Ref.export sample_key)
           (Ref.export (Ref.public sample_key)) sample_key
           _ plaintext (key_draw + 1) (key_draw + 1) sample_ciphertext).
  - vm_compute. reflexivity.
  - apply wf_str_check. vm_compute. reflexivity.
  - apply wf_str_check. vm_compute. reflexivity.
  - vm_compute. reflexivity.
  - vm_compute. reflexivity.
Defined.

Lemma exported_halves_sample :
  import_key (CryptoLib := Ref.lib) (Ref.export sample_key) = Ok sample_key
  ∧ has_private (CryptoLib := Ref.lib) sample_key = true
  ∧ ∃ k, import_key (CryptoLib := Ref.lib) (Ref.export (Ref.public sample_key)) = Ok k
         ∧ has_private k = false
         ∧ key_n k = key_n (CryptoLib := Ref.lib) sample_key
         ∧ key_e k = key_e (CryptoLib := Ref.lib) sample_key.
Proof.
  apply (exported_halves (LL := RefFacts.laws) (Some 2048) key_draw).
  vm_compute. reflexivity.
Defined.

(** The output of [generate_rsa_keys] for 2048 bits on a fresh console. *)
Lemma console_generate_rsa_keys_sample :
  (∃ key,
    Console.generate_rsa_keys (L := Ref.lib) (Some 2048) fresh_world
    = (inl (Ref.export key, Ref.export (Ref.public key), key),
       World [ nl ++ times 61 70;
               lit "Generating " ++ str_of_int 2048 ++ lit "-bit RSA key pair...";
               times 61 70;
               lit "✓ Key generation completed in " ++ str_of_int 1 ++ lit " seconds";
               lit "  Public Exponent (e): " ++ str_of_int 65537;
               lit "  Modulus Size: " ++ str_of_int 2048 ++ lit " bits" ]
         2 1))
  ∧ ∃ msg,
      Console.generate_rsa_keys (L := Ref.lib) (Some 512) fresh_world
      = (inr (Escaped (ValueError msg)),
         World [ nl ++ times 61 70;
                 lit "Generating " ++ str_of_int 512 ++ lit "-bit RSA key pair...";
                 times 61 70 ]
           1 0).
Proof.
  split.
  - destruct (proj1 (console_generate_rsa_keys (H := ref_host) (LL := RefFacts.laws)
                       (LS := RefFacts.spec_laws) 2048 fresh_world))
      as (key & _ & E); [lia |].
    exists key. exact E.
  - apply (proj2 (console_generate_rsa_keys (H := ref_host) (LL := RefFacts.laws)
                    (LS := RefFacts.spec_laws) 512 fresh_world)). lia.
Defined.

(** 1024 bits: [generate_rsa_keys] would take the size, the test does not
    get that far. *)
Lemma test_rsa_implementation_unlisted_sample :
  ∃ lines, length lines = 3%nat
    ∧ Console.test_rsa_implementation (H := ref_host) (Some 1024) fresh_world
      = (inr (KeyError "security_bits"), World lines 0 0).
Proof.
  apply (test_rsa_implementation_unlisted (H := ref_host) 1024 fresh_world).
  rewrite key_sizes_spec. lia.
Defined.


(** With the broken library the test prints the failure verdict and returns. *)
Lemma test_rsa_implementation_mismatch_sample :
  ∃ earlier, length earlier = 32%nat
    ∧ Console.test_rsa_implementation (L := faulty) (H := faulty_host)
        (Some 2048) fresh_world
      = (inl tt, World (earlier ++ [Console.FAILURE; Console.closing_rule]) 6 2).
Proof.
  apply (test_rsa_implementation_mismatch (L := faulty) (H := faulty_host)
           2048 fresh_world sample_key sample_ciphertext []).
  - apply key_sizes_spec. lia.
  - vm_compute. reflexivity.
  - vm_compute. reflexivity.
  - vm_compute. reflexivity.
  - discriminate.
Defined.


(** With the broken library all three tests fail, and [main] announces that
    they completed successfully. *)
Lemma main_banner_unconditional_sample :
  Console.FAILURE ∈ stdout (Console.main (L := faulty) (H := faulty_host) fresh_world).2
  ∧ ∃ before after, length after = 12%nat
      ∧ stdout (Console.main (L := faulty) (H := faulty_host) fresh_world).2
        = before ++ Console.ALL_COMPLETED :: after.
Proof.
  split.
  - apply (bool_decide_unpack (_ ∈ _)). vm_compute. exact I.
  - apply (main_banner_unconditional (L := faulty) (H := faulty_host) fresh_world).
    vm_compute. reflexivity.
Defined.
